(** * Binance Trade Analyzer: metrics and ranking engines

    A shallow embedding of [src/analysis/metrics.py] and
    [src/analysis/ranking.py], of the loader functions of
    [src/data/loader.py] and of the two calls of [src/app.py] that chain
    the engines.

    Numbers.  The Python code computes on binary64 floats.  The engines
    are embedded twice.  In the first embedding a column entry is an exact
    rational or one of the three IEEE special values ([fval]): arithmetic
    on finite values is exact, a division by zero yields an infinity or NaN
    as numpy does, and NaN propagates; rounding, overflow and the sign of
    zero are not represented.  It carries the properties that do not
    depend on rounding.  The module [Binary64] embeds [metrics.py] on
    binary64 numbers themselves; it carries what rounding and overflow
    decide.

    Tables.  A pandas [Series] is an association list from the index label
    to the entry, in index order; a [DataFrame] is a list of rows.

    Library routines.  The sort behind [sort_values] (pandas' default
    [kind='quicksort']), the real functions [np.sqrt] and [**] of the first
    embedding and the [**] of the second are interfaces ([SortRoutine],
    [RealFns], [Binary64.PowRoutine]); the engines are generic in them.
    An insertion sort and a rational approximation of the real functions
    are given as instances. *)

From Stdlib Require Import ZArith QArith Qabs Qround Lqa Lia.
From Stdlib Require Import String List Bool Permutation Sorted.
From Stdlib Require Import Ascii DecimalString.
From Stdlib Require PrimFloat Uint63.
Import ListNotations.

Local Open Scope Q_scope.

(** ** Column entries *)

Inductive fval : Type :=
| Fin (q : Q)
| PInf
| NInf
| NaN.

Definition Qlt_bool (a b : Q) : bool := negb (Qle_bool b a).

Definition is_finite (x : fval) : bool :=
  match x with Fin _ => true | _ => false end.

Definition isna (x : fval) : bool :=
  match x with NaN => true | _ => false end.

(** Equality of entries up to the representation of the rational. *)
Definition feq (x y : fval) : Prop :=
  match x, y with
  | Fin a, Fin b => a == b
  | PInf, PInf | NInf, NInf | NaN, NaN => True
  | _, _ => False
  end.

Definition fneg (x : fval) : fval :=
  match x with
  | Fin a => Fin (- a)
  | PInf => NInf
  | NInf => PInf
  | NaN => NaN
  end.

Definition fabs (x : fval) : fval :=
  match x with
  | Fin a => Fin (Qabs a)
  | PInf | NInf => PInf
  | NaN => NaN
  end.

Definition fadd (x y : fval) : fval :=
  match x, y with
  | NaN, _ | _, NaN => NaN
  | Fin a, Fin b => Fin (a + b)
  | PInf, NInf | NInf, PInf => NaN
  | PInf, _ | _, PInf => PInf
  | NInf, _ | _, NInf => NInf
  end.

Definition fsub (x y : fval) : fval := fadd x (fneg y).

(** The infinity with the sign of [a] times the sign of [positive]. *)
Definition signed_inf (positive : bool) : fval :=
  if positive then PInf else NInf.

Definition fmul (x y : fval) : fval :=
  match x, y with
  | NaN, _ | _, NaN => NaN
  | Fin a, Fin b => Fin (a * b)
  | Fin a, PInf | PInf, Fin a =>
      if Qeq_bool a 0 then NaN else signed_inf (Qlt_bool 0 a)
  | Fin a, NInf | NInf, Fin a =>
      if Qeq_bool a 0 then NaN else signed_inf (Qlt_bool a 0)
  | PInf, PInf | NInf, NInf => PInf
  | PInf, NInf | NInf, PInf => NInf
  end.

Definition fdiv (x y : fval) : fval :=
  match x, y with
  | NaN, _ | _, NaN => NaN
  | Fin a, Fin b =>
      if Qeq_bool b 0
      then (if Qeq_bool a 0 then NaN else signed_inf (Qlt_bool 0 a))
      else Fin (a / b)
  | Fin _, PInf | Fin _, NInf => Fin 0
  | PInf, Fin b => signed_inf (Qle_bool 0 b)
  | NInf, Fin b => signed_inf (Qlt_bool b 0)
  | _, _ => NaN
  end.

(** [x > y] on entries: false as soon as one side is NaN. *)
Definition fgt (x y : fval) : bool :=
  match x, y with
  | NaN, _ | _, NaN => false
  | Fin a, Fin b => Qlt_bool b a
  | PInf, PInf => false
  | PInf, _ => true
  | NInf, _ => false
  | Fin _, NInf => true
  | Fin _, PInf => false
  end.

(** [np.where(cond, a, b)] at one position. *)
Definition np_where (cond : bool) (a b : fval) : fval :=
  if cond then a else b.

(** [fillna(0)] and [replace([inf, -inf], 0)] at one position. *)
Definition fillna0 (x : fval) : fval :=
  match x with NaN => Fin 0 | _ => x end.

Definition replace_inf0 (x : fval) : fval :=
  match x with PInf | NInf => Fin 0 | _ => x end.

(** The smaller of two entries, a NaN being skipped ([skipna=True]). *)
Definition fmin2 (x y : fval) : fval :=
  match x, y with
  | NaN, _ => y
  | _, NaN => x
  | NInf, _ | _, NInf => NInf
  | PInf, _ => y
  | _, PInf => x
  | Fin a, Fin b => if Qle_bool a b then x else y
  end.

(** [Series.min()]: NaN on an empty or all-NaN column. *)
Definition series_min (l : list fval) : fval := fold_right fmin2 NaN l.

Definition Qsum (l : list Q) : Q := fold_right Qplus 0 l.

(** ** Errors *)

Inductive exn : Type :=
| ValueError (msg : string)
| IndexError (msg : string).

Inductive result (A : Type) : Type :=
| Ok (a : A)
| Raise (e : exn).

Arguments Ok {A} a.
Arguments Raise {A} e.

(** ** Series *)

Definition Series : Type := list (Z * fval).

(** Label-aligned access: a label absent from the index reads as NaN. *)
Fixpoint series_get (s : Series) (k : Z) : fval :=
  match s with
  | [] => NaN
  | (k', v) :: r => if Z.eqb k' k then v else series_get r k
  end.

Definition series_index (s : Series) : list Z := map fst s.

(** ** Grouping keys *)

(** Keys of a [groupby]: distinct, ascending. *)
Fixpoint insert_key (k : Z) (ks : list Z) : list Z :=
  match ks with
  | [] => [k]
  | k' :: r =>
      if Z.ltb k k' then k :: ks
      else if Z.eqb k k' then ks
      else k' :: insert_key k r
  end.

Definition group_keys (ks : list Z) : list Z := fold_right insert_key [] ks.

(** [Series.unique()]: distinct, in order of first appearance. *)
Fixpoint unique (ks : list Z) : list Z :=
  match ks with
  | [] => []
  | k :: r => k :: filter (fun x => negb (Z.eqb x k)) (unique r)
  end.

(** ** Trade records *)

Record Trade : Type := mkTrade {
  Port_IDs : Z;
  timestamp : Z;
  price : Q;
  quantity : Q;
  realizedProfit : Q
}.

(** The caller's trade table: its rows, and the ['date'] column when the
    table has one (one entry per row). *)
Record TradeFrame : Type := mkFrame {
  rows : list Trade;
  date_column : option (list Z)
}.

Definition base_columns : list string :=
  ["Port_IDs"; "timestamp"; "price"; "quantity"; "realizedProfit"]%string.

Definition columns (tf : TradeFrame) : list string :=
  match date_column tf with
  | None => base_columns
  | Some _ => base_columns ++ ["date"%string]
  end.

(** Rows of one account: [trades_df[trades_df['Port_IDs'] == port_id]]. *)
Definition account_rows (df : list Trade) (k : Z) : list Trade :=
  filter (fun t => Z.eqb (Port_IDs t) k) df.

(** ** metrics.py *)

(** [calculate_roi] *)
Definition roi_of (g : list Trade) : fval :=
  let rp := Fin (Qsum (map realizedProfit g)) in
  let q := Qsum (map quantity g) in
  np_where (negb (Qeq_bool q 0))
           (fmul (fdiv rp (Fin q)) (Fin 100))
           (Fin 0).

Definition calculate_roi (df : list Trade) : Series :=
  map (fun k => (k, roi_of (account_rows df k)))
      (group_keys (map Port_IDs df)).

(** [calculate_pnl] *)
Definition calculate_pnl (df : list Trade) : Series :=
  map (fun k => (k, Fin (Qsum (map realizedProfit (account_rows df k)))))
      (group_keys (map Port_IDs df)).

(** ** Library interfaces *)

(** The routine behind [sort_values]: [leb x y] tells that [x] may come
    before [y].  The result holds the same rows and is in order whenever
    [leb] is a total preorder; nothing is promised about rows that compare
    equal (pandas sorts with [kind='quicksort'] unless told otherwise). *)
Class SortRoutine : Type := {
  sort_values : forall A : Type, (A -> A -> bool) -> list A -> list A;
  sort_values_perm :
    forall (A : Type) (leb : A -> A -> bool) (l : list A),
      Permutation (sort_values A leb l) l;
  sort_values_sorted :
    forall (A : Type) (leb : A -> A -> bool) (l : list A),
      (forall x y, leb x y = true \/ leb y x = true) ->
      (forall x y z, leb x y = true -> leb y z = true -> leb x z = true) ->
      StronglySorted (fun x y => leb x y = true) (sort_values A leb l)
}.

(** [np.sqrt] and [**] on finite arguments. *)
Class RealFns : Type := {
  np_sqrt : Q -> Q;
  np_pow : Q -> Q -> Q;
  np_sqrt_nonneg : forall x : Q, 0 <= np_sqrt x
}.

(** ** Column statistics *)

Definition Qlen {A : Type} (l : list A) : Q := inject_Z (Z.of_nat (length l)).

(** [Series.mean()] *)
Definition series_mean (l : list Q) : fval := fdiv (Fin (Qsum l)) (Fin (Qlen l)).

Definition Qmean (l : list Q) : Q := Qsum l / Qlen l.

(** Sum of squared deviations from the mean. *)
Definition sq_dev (l : list Q) : Q :=
  Qsum (map (fun x => (x - Qmean l) * (x - Qmean l)) l).

(** [Series.std()], the sample standard deviation ([ddof=1]). *)
Definition series_std `{RealFns} (l : list Q) : fval :=
  if Nat.leb (length l) 1 then NaN
  else Fin (np_sqrt (sq_dev l / (Qlen l - 1))).

(** A running accumulation of a column: entry [t] combines the entries
    up to [t] with [f], left to right. *)
Fixpoint scan_from (f : Q -> Q -> Q) (acc : Q) (l : list Q) : list Q :=
  match l with
  | [] => []
  | x :: r => f acc x :: scan_from f (f acc x) r
  end.

Definition scan (f : Q -> Q -> Q) (l : list Q) : list Q :=
  match l with
  | [] => []
  | x :: r => x :: scan_from f x r
  end.

Definition Qmax2 (a b : Q) : Q := if Qle_bool a b then b else a.

(** [Series.cumprod()] *)
Definition cumprod (l : list Q) : list Q := scan Qmult l.

(** [Series.expanding().max()] *)
Definition expanding_max (l : list Q) : list Q := scan Qmax2 l.

(** ** metrics.py, continued *)

Definition ms_per_day : Z := 86400000.

(** [timestamp.dt.date]: the calendar day of an instant given in
    milliseconds. *)
Definition date_of (ts : Z) : Z := (ts / ms_per_day)%Z.

(** Rows of the table paired with their ['date'] entry. *)
Definition dated_rows (tf : TradeFrame) : list (Trade * Z) :=
  match date_column tf with
  | Some d => combine (rows tf) d
  | None => []
  end.

(** [groupby(['Port_IDs', 'date'])['realizedProfit'].sum().reset_index()]:
    one row per account and day, accounts ascending, days ascending
    within an account. *)
Definition daily_returns (dr : list (Trade * Z)) : list (Z * Z * Q) :=
  flat_map
    (fun k =>
       let g := filter (fun td => Z.eqb (Port_IDs (fst td)) k) dr in
       map (fun d =>
              (k, d,
               Qsum (map (fun td => realizedProfit (fst td))
                         (filter (fun td => Z.eqb (snd td) d) g))))
           (group_keys (map snd g)))
    (group_keys (map (fun td => Port_IDs (fst td)) dr)).

(** The body of the loop of [calculate_sharpe_ratio] for one account. *)
Definition sharpe_of `{RealFns} (risk_free_rate : Q) (port_returns : list Q)
  : fval :=
  if Nat.ltb 1 (length port_returns) then
    let daily_rf_rate := np_pow (1 + risk_free_rate) (1 / 365) - 1 in
    let excess_returns := map (fun r => r - daily_rf_rate) port_returns in
    let std := series_std excess_returns in
    if fgt std (Fin 0)
    then fmul (Fin (np_sqrt 365)) (fdiv (series_mean excess_returns) std)
    else Fin 0
  else Fin 0.

(** [calculate_sharpe_ratio]: writes the ['date'] column into the table it
    is given, then works from it.  Returns the series and the table as it
    is left. *)
Definition calculate_sharpe_ratio `{RealFns} (tf : TradeFrame)
  (risk_free_rate : Q) : Series * TradeFrame :=
  let tf' := mkFrame (rows tf) (Some (map (fun t => date_of (timestamp t)) (rows tf))) in
  let daily := daily_returns (dated_rows tf') in
  let sharpe_ratios :=
    map (fun port_id =>
           let port_returns :=
             map snd (filter (fun r => Z.eqb (fst (fst r)) port_id) daily) in
           (port_id, sharpe_of risk_free_rate port_returns))
        (unique (map (fun r => fst (fst r)) daily)) in
  (sharpe_ratios, tf').

Definition by_timestamp (a b : Trade) : bool :=
  Z.leb (timestamp a) (timestamp b).

(** [cumulative_returns / rolling_max - 1] *)
Definition drawdowns_of (cumulative_returns rolling_max : list Q) : list fval :=
  map (fun cm => fsub (fdiv (Fin (fst cm)) (Fin (snd cm))) (Fin 1))
      (combine cumulative_returns rolling_max).

(** The body of the loop of [calculate_mdd], on the sorted rows of one
    account. *)
Definition mdd_of (port_trades : list Trade) : fval :=
  if Nat.ltb 0 (length port_trades) then
    let cumulative_returns :=
      cumprod (map (fun t => 1 + realizedProfit t) port_trades) in
    if Nat.ltb 0 (length cumulative_returns) then
      let rolling_max := expanding_max cumulative_returns in
      let drawdowns := drawdowns_of cumulative_returns rolling_max in
      if Nat.ltb 0 (length drawdowns)
      then fmul (fabs (series_min drawdowns)) (Fin 100)
      else Fin 0
    else Fin 0
  else Fin 0.

(** [calculate_mdd] *)
Definition calculate_mdd `{SortRoutine} (df : list Trade) : Series :=
  map (fun port_id =>
         (port_id,
          mdd_of (sort_values Trade by_timestamp (account_rows df port_id))))
      (unique (map Port_IDs df)).

(** The table returned by [calculate_win_rate], column by column. *)
Record WinMetrics : Type := mkWin {
  wm_realizedProfit : Series;
  wm_total_positions : Series;
  wm_win_rate : Series
}.

Definition count_wins (g : list Trade) : Z :=
  Z.of_nat (length (filter (fun t => Qlt_bool 0 (realizedProfit t)) g)).

Definition win_rate_of (wins total : Z) : fval :=
  np_where (Z.ltb 0 total)
           (fmul (fdiv (Fin (inject_Z wins)) (Fin (inject_Z total))) (Fin 100))
           (Fin 0).

(** [calculate_win_rate] *)
Definition calculate_win_rate (df : list Trade) : WinMetrics :=
  let keys := group_keys (map Port_IDs df) in
  let wins k := count_wins (account_rows df k) in
  let total k := Z.of_nat (length (account_rows df k)) in
  mkWin (map (fun k => (k, Fin (inject_Z (wins k)))) keys)
        (map (fun k => (k, Fin (inject_Z (total k)))) keys)
        (map (fun k => (k, win_rate_of (wins k) (total k))) keys).

(** One row of the metrics table. *)
Record AccountMetrics : Type := mkMetrics {
  roi : fval;
  total_pnl : fval;
  sharpe_ratio : fval;
  max_drawdown : fval;
  win_rate : fval;
  win_positions : fval;
  total_positions : fval
}.

Definition MetricsTable : Type := list (Z * AccountMetrics).

(** Index of a frame built from several series: the ascending union of
    their labels. *)
Definition index_union (indexes : list (list Z)) : list Z :=
  group_keys (concat indexes).

Definition fillna_row (m : AccountMetrics) : AccountMetrics :=
  mkMetrics (fillna0 (roi m)) (fillna0 (total_pnl m))
            (fillna0 (sharpe_ratio m)) (fillna0 (max_drawdown m))
            (fillna0 (win_rate m)) (fillna0 (win_positions m))
            (fillna0 (total_positions m)).

Definition default_risk_free_rate : Q := 2 # 100.

(** [calculate_metrics]: the outcome, and the caller's table as it is left. *)
Definition calculate_metrics `{SortRoutine} `{RealFns} (trades_df : TradeFrame)
  : result MetricsTable * TradeFrame :=
  if Nat.eqb (length (rows trades_df)) 0 then
    (Raise (ValueError "No trade data available for analysis"), trades_df)
  else
    let s_roi := calculate_roi (rows trades_df) in
    let s_pnl := calculate_pnl (rows trades_df) in
    let '(s_sharpe, trades_df1) :=
      calculate_sharpe_ratio trades_df default_risk_free_rate in
    let s_mdd := calculate_mdd (rows trades_df1) in
    let index :=
      index_union [series_index s_roi; series_index s_pnl;
                   series_index s_sharpe; series_index s_mdd] in
    let win_metrics := calculate_win_rate (rows trades_df1) in
    let metrics :=
      map (fun k =>
             (k, mkMetrics (series_get s_roi k) (series_get s_pnl k)
                           (series_get s_sharpe k) (series_get s_mdd k)
                           (series_get (wm_win_rate win_metrics) k)
                           (series_get (wm_realizedProfit win_metrics) k)
                           (series_get (wm_total_positions win_metrics) k)))
          index in
    (Ok (map (fun kr => (fst kr, fillna_row (snd kr))) metrics), trades_df1).

(** ** ranking.py *)

Definition bind {A B : Type} (r : result A) (f : A -> result B) : result B :=
  match r with
  | Ok a => f a
  | Raise e => Raise e
  end.

Notation "x <- c ;; k" := (bind c (fun x => k))
  (at level 61, c at next level, right associativity).

Definition fmax2 (x y : fval) : fval :=
  match x, y with
  | NaN, _ => y
  | _, NaN => x
  | PInf, _ | _, PInf => PInf
  | NInf, _ => y
  | _, NInf => x
  | Fin a, Fin b => if Qle_bool a b then y else x
  end.

(** [Series.max()]: NaN on an empty or all-NaN column. *)
Definition series_max (l : list fval) : fval := fold_right fmax2 NaN l.

(** [x != y] on entries: true as soon as one side is NaN. *)
Definition fne (x y : fval) : bool :=
  match x, y with
  | Fin a, Fin b => negb (Qeq_bool a b)
  | PInf, PInf | NInf, NInf => false
  | _, _ => true
  end.

(** [df.replace([np.inf, -np.inf], 0).fillna(0)] at one position. *)
Definition sanitize (x : fval) : fval := fillna0 (replace_inf0 x).

(** The working copy [df] of [normalize_metrics]. *)
Definition sanitized_copy (metrics_df : MetricsTable) : MetricsTable :=
  map (fun kr =>
         (fst kr,
          mkMetrics (sanitize (roi (snd kr))) (sanitize (total_pnl (snd kr)))
                    (sanitize (sharpe_ratio (snd kr)))
                    (sanitize (max_drawdown (snd kr)))
                    (sanitize (win_rate (snd kr)))
                    (sanitize (win_positions (snd kr)))
                    (sanitize (total_positions (snd kr)))))
      metrics_df.

Definition column (f : AccountMetrics -> fval) (df : MetricsTable) : list fval :=
  map (fun kr => f (snd kr)) df.

(** The [max_drawdown] column, lower is better. *)
Definition normalize_mdd (mdd : list fval) : list fval :=
  if fne (series_max mdd) (series_min mdd) then
    map (fun v =>
           fsub (Fin 1)
                (fdiv (fsub v (series_min mdd))
                      (fsub (series_max mdd) (series_min mdd))))
        mdd
  else map (fun _ => Fin 1) mdd.

(** [values.iloc[0]] *)
Definition iloc0 (values : list fval) : result fval :=
  match values with
  | v :: _ => Ok v
  | [] => Raise (IndexError "single positional indexer is out-of-bounds")
  end.

(** One pass of the loop over [cols_to_normalize]. *)
Definition normalize_column (values : list fval) : result (list fval) :=
  if fne (series_max values) (series_min values) then
    Ok (map (fun v =>
               fdiv (fsub v (series_min values))
                    (fsub (series_max values) (series_min values)))
            values)
  else
    v0 <- iloc0 values ;;
    Ok (map (fun _ => if fgt v0 (Fin 0) then Fin 1 else Fin 0) values).

(** The frame returned by [normalize_metrics], column by column. *)
Record NormalizedData : Type := mkNormalized {
  nd_index : list Z;
  nd_roi : list fval;
  nd_total_pnl : list fval;
  nd_sharpe_ratio : list fval;
  nd_win_rate : list fval;
  nd_max_drawdown : list fval
}.

(** [normalize_metrics] *)
Definition normalize_metrics (metrics_df : MetricsTable) : result NormalizedData :=
  let df := sanitized_copy metrics_df in
  let normalized_mdd := normalize_mdd (column max_drawdown df) in
  c_roi <- normalize_column (column roi df) ;;
  c_pnl <- normalize_column (column total_pnl df) ;;
  c_sharpe <- normalize_column (column sharpe_ratio df) ;;
  c_win <- normalize_column (column win_rate df) ;;
  Ok (mkNormalized (map fst df) c_roi c_pnl c_sharpe c_win normalized_mdd).

Inductive metric : Type :=
| m_roi
| m_total_pnl
| m_sharpe_ratio
| m_max_drawdown
| m_win_rate.

(** [get_feature_importance], in the order the dictionary is written. *)
Definition get_feature_importance : list (metric * Q) :=
  [(m_roi, 25 # 100); (m_total_pnl, 20 # 100); (m_sharpe_ratio, 20 # 100);
   (m_max_drawdown, 15 # 100); (m_win_rate, 20 # 100)].

Definition nd_column (nd : NormalizedData) (m : metric) : list fval :=
  match m with
  | m_roi => nd_roi nd
  | m_total_pnl => nd_total_pnl nd
  | m_sharpe_ratio => nd_sharpe_ratio nd
  | m_max_drawdown => nd_max_drawdown nd
  | m_win_rate => nd_win_rate nd
  end.

(** Position-wise combination of two columns over the same index. *)
Fixpoint map2 {A B C : Type} (f : A -> B -> C) (l : list A) (l' : list B)
  : list C :=
  match l, l' with
  | a :: r, b :: r' => f a b :: map2 f r r'
  | _, _ => []
  end.

(** The loop [weighted_scores += normalized_metrics[metric] * weight]. *)
Definition weighted_scores_of (nd : NormalizedData) (n_rows : nat) : list fval :=
  fold_left
    (fun acc mw =>
       map2 fadd acc (map (fun v => fmul v (Fin (snd mw))) (nd_column nd (fst mw))))
    get_feature_importance
    (repeat (Fin 0) n_rows).

(** Nearest integer, halves to the even neighbour. *)
Definition Zrint (q : Q) : Z :=
  let f := Qfloor q in
  let frac := q - inject_Z f in
  if Qlt_bool frac (1 # 2) then f
  else if Qlt_bool (1 # 2) frac then (f + 1)%Z
  else if Z.even f then f else (f + 1)%Z.

(** [Series.round(2)] at one position. *)
Definition round2 (x : fval) : fval :=
  match x with
  | Fin q => Fin (inject_Z (Zrint (q * 100)) / 100)
  | _ => x
  end.

(** A row of the [rankings] frame before the rank is assigned. *)
Record RankingRow : Type := mkRow {
  r_Port_IDs : Z;
  Score : fval;
  ROI : fval;
  Total_PnL : fval;
  Sharpe_Ratio : fval;
  Max_Drawdown : fval;
  Win_Rate : fval;
  Win_Positions : fval;
  Total_Positions : fval
}.

Record RankedEntry : Type := mkEntry {
  Rank : Z;
  entry : RankingRow
}.

(** The [rankings] frame as first built, in the order of [metrics_df]. *)
Definition rankings_frame (metrics_df : MetricsTable) : result (list RankingRow) :=
  normalized_metrics <- normalize_metrics metrics_df ;;
  let weighted_scores := weighted_scores_of normalized_metrics (length metrics_df) in
  Ok (map2 (fun kr s =>
              mkRow (fst kr) s
                    (round2 (roi (snd kr))) (round2 (total_pnl (snd kr)))
                    (round2 (sharpe_ratio (snd kr)))
                    (round2 (max_drawdown (snd kr)))
                    (round2 (win_rate (snd kr)))
                    (win_positions (snd kr)) (total_positions (snd kr)))
           metrics_df weighted_scores).

(** [x >= y] on entries that are not NaN. *)
Definition fge (x y : fval) : bool :=
  match x, y with
  | Fin a, Fin b => Qle_bool b a
  | PInf, _ | _, NInf => true
  | _, _ => false
  end.

(** Order of [sort_values('Score', ascending=False)]: larger scores first,
    rows without a score last. *)
Definition score_before (a b : RankingRow) : bool :=
  match Score a, Score b with
  | _, NaN => true
  | NaN, _ => false
  | x, y => fge x y
  end.

(** [DataFrame.head(n)]: the first [n] rows, or all but the last [-n]
    rows when [n] is negative. *)
Definition head {A : Type} (n : Z) (l : list A) : list A :=
  if Z.leb 0 n then firstn (Z.to_nat n) l
  else firstn (length l - Z.to_nat (- n)) l.

(** [range(1, n + 1)] *)
Definition range1 (n : nat) : list Z := map Z.of_nat (seq 1 n).

(** [rank_accounts] *)
Definition rank_accounts `{SortRoutine} (metrics_df : MetricsTable) (top_n : Z)
  : result (list RankedEntry) :=
  rankings <- rankings_frame metrics_df ;;
  let selected := head top_n (sort_values RankingRow score_before rankings) in
  Ok (map2 mkEntry (range1 (length selected)) selected).

Definition default_top_n : Z := 20.

(** ** The metrics as the specification words them *)

(** ROI of one account: [100 * sum(realized_profit) / sum(quantity)],
    and 0 on zero volume. *)
Definition roi_spec (g : list Trade) : Q :=
  let volume := Qsum (map quantity g) in
  if Qeq_bool volume 0 then 0
  else 100 * Qsum (map realizedProfit g) / volume.

(** Entry [t] of a running accumulation, from the entries [0..t] alone. *)
Definition prefix_fold (f : Q -> Q -> Q) (xs : list Q) (t : nat) : Q :=
  match firstn (S t) xs with
  | [] => 0
  | x :: r => fold_left f r x
  end.

(** Cumulative product of [1 + realized_profit] after trade [t]. *)
Definition cum_at (profits : list Q) (t : nat) : Q :=
  prefix_fold Qmult (map (fun p => 1 + p) profits) t.

(** Running maximum of the cumulative series at trade [t]. *)
Definition running_max_at (profits : list Q) (t : nat) : Q :=
  prefix_fold Qmax2 (map (cum_at profits) (seq 0 (length profits))) t.

(** [drawdown_t = cum_t / running_max_t - 1] *)
Definition drawdown_at (profits : list Q) (t : nat) : fval :=
  fsub (fdiv (Fin (cum_at profits t)) (Fin (running_max_at profits t))) (Fin 1).

(** [MDD = 100 * abs(min(drawdown))] over the profits in trade order. *)
Definition mdd_spec (profits : list Q) : fval :=
  fmul (fabs (series_min (map (drawdown_at profits) (seq 0 (length profits)))))
       (Fin 100).

(** The row of account [k] as [calculate_metrics] assembles it from the
    five series, before [fillna(0)]. *)
Definition raw_metrics `{SortRoutine} `{RealFns} (tf : TradeFrame) (k : Z)
  : AccountMetrics :=
  let df := rows tf in
  let win_metrics := calculate_win_rate df in
  mkMetrics (series_get (calculate_roi df) k)
            (series_get (calculate_pnl df) k)
            (series_get (fst (calculate_sharpe_ratio tf default_risk_free_rate)) k)
            (series_get (calculate_mdd df) k)
            (series_get (wm_win_rate win_metrics) k)
            (series_get (wm_realizedProfit win_metrics) k)
            (series_get (wm_total_positions win_metrics) k).

(** The table with the ['date'] column written. *)
Definition with_date_column (tf : TradeFrame) : TradeFrame :=
  mkFrame (rows tf) (Some (map (fun t => date_of (timestamp t)) (rows tf))).

(** The calendar days on which an account traded, ascending. *)
Definition distinct_dates (g : list Trade) : list Z :=
  group_keys (map (fun t => date_of (timestamp t)) g).

(** Daily returns of an account: its realized profit summed per day. *)
Definition daily_sums (g : list Trade) : list Q :=
  map (fun d =>
         Qsum (map realizedProfit
                   (filter (fun t => Z.eqb (date_of (timestamp t)) d) g)))
      (distinct_dates g).

(** Sample standard deviation (divisor [n - 1]). *)
Definition sample_std `{RealFns} (l : list Q) : Q :=
  np_sqrt (sq_dev l / (Qlen l - 1)).

(** Sharpe ratio of one account as the specification words it. *)
Definition sharpe_spec `{RealFns} (annual_rf : Q) (g : list Trade) : Q :=
  if Nat.ltb (length (distinct_dates g)) 2 then 0
  else
    let daily_rf := np_pow (1 + annual_rf) (1 / 365) - 1 in
    let excess := map (fun r => r - daily_rf) (daily_sums g) in
    if Qeq_bool (sample_std excess) 0 then 0
    else np_sqrt 365 * Qmean excess / sample_std excess.

(** An entry that is not an infinity. *)
Definition not_inf (x : fval) : Prop :=
  match x with
  | PInf | NInf => False
  | _ => True
  end.

(** An entry that is NaN or a non-negative number. *)
Definition nan_or_nonneg (x : fval) : Prop :=
  x = NaN \/ exists q, x = Fin q /\ 0 <= q.

(** ** The ranking as the specification words it *)

(** The value of an entry once non-finite values count as 0. *)
Definition clean (x : fval) : Q :=
  match x with
  | Fin q => q
  | _ => 0
  end.

(** A metric over the whole account population. *)
Definition clean_column (f : AccountMetrics -> fval) (m : MetricsTable) : list Q :=
  map (fun kr => clean (f (snd kr))) m.

Definition population_max (qs : list Q) (mx : Q) : Prop :=
  In mx qs /\ forall q, In q qs -> q <= mx.

Definition population_min (qs : list Q) (mn : Q) : Prop :=
  In mn qs /\ forall q, In q qs -> mn <= q.

(** Min-max scaling of a "higher is better" value [q] to [n]. *)
Definition higher_is_better (mx mn q n : Q) : Prop :=
  (~ mx == mn ->
   n == (q - mn) / (mx - mn) /\ (q == mn -> n == 0) /\ (q == mx -> n == 1)) /\
  (mx == mn -> n == (if Qlt_bool 0 q then 1 else 0)).

(** Inverted scaling of a "lower is better" value [q] to [n]. *)
Definition lower_is_better (mx mn q n : Q) : Prop :=
  (~ mx == mn ->
   n == 1 - (q - mn) / (mx - mn) /\ (q == mx -> n == 0) /\ (q == mn -> n == 1)) /\
  (mx == mn -> n == 1).

(** Column [out] is the scaling [R] of column [qs], whatever values are
    taken for the population maximum and minimum. *)
Definition scaled_as (R : Q -> Q -> Q -> Q -> Prop) (qs out : list Q) : Prop :=
  forall mx mn, population_max qs mx -> population_min qs mn ->
                Forall2 (R mx mn) qs out.

Definition in_unit_interval (n : Q) : Prop := 0 <= n /\ n <= 1.

(** The weighted sum of five normalized values, in the order the loop of
    [rank_accounts] adds them up. *)
Definition score_sum (n_roi n_pnl n_sharpe n_mdd n_win : Q) : Q :=
  0 + n_roi * (25 # 100) + n_pnl * (20 # 100) + n_sharpe * (20 # 100)
  + n_mdd * (15 # 100) + n_win * (20 # 100).

(** What each row of the [rankings] frame holds before sorting: the
    account of the same position in [metrics_df], and as score the
    weighted sum of that position's normalized values. *)
Definition row_scored (m : MetricsTable) (o1 o2 o3 o4 o5 : list Q) (i : nat)
  (row : RankingRow) : Prop :=
  exists kr n1 n2 n3 n4 n5,
    nth_error m i = Some kr /\ r_Port_IDs row = fst kr /\
    nth_error o1 i = Some n1 /\ nth_error o2 i = Some n2 /\
    nth_error o3 i = Some n3 /\ nth_error o4 i = Some n4 /\
    nth_error o5 i = Some n5 /\
    Score row = Fin (score_sum n1 n2 n3 n5 n4).





(** What a row of the [rankings] frame carries from the row of
    [metrics_df] at the same position. *)
Definition carried_from (kr : Z * AccountMetrics) (row : RankingRow) : Prop :=
  r_Port_IDs row = fst kr /\
  ROI row = round2 (roi (snd kr)) /\
  Total_PnL row = round2 (total_pnl (snd kr)) /\
  Sharpe_Ratio row = round2 (sharpe_ratio (snd kr)) /\
  Max_Drawdown row = round2 (max_drawdown (snd kr)) /\
  Win_Rate row = round2 (win_rate (snd kr)) /\
  Win_Positions row = win_positions (snd kr) /\
  Total_Positions row = total_positions (snd kr).

(** An entry of the metrics table that is not a number is displayed
    unchanged. *)
Definition shown_as_is (table_value shown : fval) : Prop :=
  is_finite table_value = false -> shown = table_value.

(** [app.py]: [metrics = calculate_metrics(cleaned_data)] followed by
    [rankings = rank_accounts(metrics)]; an exception of the first call
    ends the run.  Returns both tables and the trade table as it is left. *)
Definition run_analysis `{SortRoutine} `{RealFns} (cleaned_data : TradeFrame)
  : result (MetricsTable * list RankedEntry) * TradeFrame :=
  let '(r, data') := calculate_metrics cleaned_data in
  (metrics <- r ;;
   rankings <- rank_accounts metrics default_top_n ;;
   Ok (metrics, rankings),
   data').

(** * loader.py *)

(** ** [classify_trade] *)

(** [str.upper()] and [str.lower()] on ASCII text. *)
Definition upper_char (c : Ascii.ascii) : Ascii.ascii :=
  let n := Ascii.nat_of_ascii c in
  if Nat.leb 97 n && Nat.leb n 122 then Ascii.ascii_of_nat (n - 32) else c.

Definition lower_char (c : Ascii.ascii) : Ascii.ascii :=
  let n := Ascii.nat_of_ascii c in
  if Nat.leb 65 n && Nat.leb n 90 then Ascii.ascii_of_nat (n + 32) else c.

Fixpoint str_map (f : Ascii.ascii -> Ascii.ascii) (s : string) : string :=
  match s with
  | EmptyString => EmptyString
  | String c r => String (f c) (str_map f r)
  end.

Definition str_upper : string -> string := str_map upper_char.
Definition str_lower : string -> string := str_map lower_char.

(** The two fields [classify_trade] reads from a row; [positionSide] may
    be absent from the row. *)
Record SideRow : Type := mkSideRow {
  side : string;
  positionSide : option string
}.

(** [row.get('positionSide', 'BOTH')] *)
Definition get_positionSide (row : SideRow) : string :=
  match positionSide row with
  | Some p => p
  | None => "BOTH"%string
  end.

(** [classify_trade] *)
Definition classify_trade (row : SideRow) : string :=
  let side_u := str_upper (side row) in
  let position_side := str_upper (get_positionSide row) in
  if String.eqb position_side "BOTH" then str_lower side_u
  else if String.eqb side_u "BUY" then
    (if String.eqb position_side "LONG"
     then str_lower position_side ++ "_open"
     else str_lower position_side ++ "_close")%string
  else
    (if String.eqb position_side "LONG"
     then str_lower position_side ++ "_close"
     else str_lower position_side ++ "_open")%string.

(** ** [validate_columns] *)

Definition REQUIRED_COLUMNS : list string :=
  ["Port_IDs"; "timestamp"; "symbol"; "side"; "positionSide"; "price";
   "quantity"; "realizedProfit"]%string.

Definition column_mapping : list (string * list string) :=
  [("Port_IDs", ["port_ids"; "account_id"; "account"]);
   ("timestamp", ["time"; "date"; "datetime"]);
   ("symbol", ["asset"; "pair"; "trading_pair"]);
   ("side", ["trade_side"; "position"]);
   ("positionSide", ["position_side"; "trade_type"]);
   ("price", ["trade_price"; "execution_price"]);
   ("quantity", ["amount"; "size"; "qty"]);
   ("realizedProfit", ["pnl"; "profit"; "realized_profit"])]%string.

(** [column_mapping.get(required_col, [])] *)
Fixpoint mapping_get (mapping : list (string * list string)) (key : string)
  : list string :=
  match mapping with
  | [] => []
  | (k, v) :: r => if String.eqb k key then v else mapping_get r key
  end.

(** [name in data.columns] *)
Definition has_column (name : string) (cols : list string) : bool :=
  existsb (String.eqb name) cols.

(** [data.rename(columns={old: new}, inplace=True)] on the column names. *)
Definition rename_column (old new : string) (cols : list string) : list string :=
  map (fun c => if String.eqb c old then new else c) cols.

(** [list.remove(x)]: drops the first occurrence. *)
Fixpoint list_remove (x : string) (l : list string) : list string :=
  match l with
  | [] => []
  | y :: r => if String.eqb y x then r else y :: list_remove x r
  end.

(** The inner loop over the alternative names of one required column:
    the renamed columns when an alternative is present. *)
Fixpoint try_alternatives (required_col : string) (alts cols : list string)
  : option (list string) :=
  match alts with
  | [] => None
  | alt_name :: r =>
      if has_column alt_name cols
      then Some (rename_column alt_name required_col cols)
      else try_alternatives required_col r cols
  end.

(** The loop over a copy of [missing_columns]: the columns and the list of
    missing columns as they are left. *)
Fixpoint map_alternatives (todo cols missing : list string)
  : list string * list string :=
  match todo with
  | [] => (cols, missing)
  | required_col :: rest =>
      match try_alternatives required_col
                             (mapping_get column_mapping required_col) cols with
      | Some cols' => map_alternatives rest cols' (list_remove required_col missing)
      | None => map_alternatives rest cols missing
      end
  end.

Definition missing_columns_message (missing : list string) : string :=
  ("Missing required columns: " ++ String.concat ", " missing
   ++ ". Required columns are: " ++ String.concat ", " REQUIRED_COLUMNS)%string.

(** [validate_columns] on the column names of the table: the outcome, and
    the column names of the caller's table as they are left (the renaming
    is done in place). *)
Definition validate_columns (cols : list string)
  : result (list string) * list string :=
  let missing_columns :=
    filter (fun col => negb (has_column col cols)) REQUIRED_COLUMNS in
  match missing_columns with
  | [] => (Ok cols, cols)
  | _ :: _ =>
      let '(cols', missing') :=
        map_alternatives missing_columns cols missing_columns in
      match missing' with
      | [] => (Ok cols', cols')
      | _ :: _ => (Raise (ValueError (missing_columns_message missing')), cols')
      end
  end.

(** ** [handle_missing_values] *)

(** A column of a table with its dtype: numeric, object (text, [None] for
    a missing entry), or anything else (datetime, bool, ...). *)
Inductive Column : Type :=
| NumCol (values : list fval)
| ObjCol (values : list (option string))
| OtherCol (values : list (option Z)).

Definition Frame : Type := list (string * Column).

(** What the function shows on the page. *)
Inductive st_event : Type :=
| st_warning (msg : string)
| st_write (msg : string).

Definition count_true {A : Type} (p : A -> bool) (l : list A) : nat :=
  length (filter p l).

Definition is_none {A : Type} (o : option A) : bool :=
  match o with
  | None => true
  | Some _ => false
  end.

(** [df.isnull().sum()] for one column. *)
Definition missing_count (c : Column) : nat :=
  match c with
  | NumCol v => count_true isna v
  | ObjCol v => count_true is_none v
  | OtherCol v => count_true is_none v
  end.

(** Digits of the reversed number with a comma after every third one. *)
Fixpoint commas_rev (l : list ascii) (k : nat) : list ascii :=
  match l with
  | [] => []
  | c :: r =>
      if Nat.eqb k 3 then ","%char :: c :: commas_rev r 1
      else c :: commas_rev r (S k)
  end.

(** [f"{count:,}"] *)
Definition format_thousands (n : nat) : string :=
  string_of_list_ascii
    (rev (commas_rev (rev (list_ascii_of_string
                             (NilZero.string_of_uint (Nat.to_uint n)))) 0)).

Definition missing_line (col : string) (count : nat) : st_event :=
  st_write ("- " ++ col ++ ": " ++ format_thousands count ++ " missing values").

(** The report on missing values, column by column. *)
Definition missing_report (df : Frame) : list st_event :=
  if existsb (fun nc => negb (Nat.eqb (missing_count (snd nc)) 0)) df then
    st_warning "Missing values found in the following columns:"
    :: map (fun nc => missing_line (fst nc) (missing_count (snd nc)))
           (filter (fun nc => Nat.ltb 0 (missing_count (snd nc))) df)
  else [].

(** [fillna(0)] on the numeric columns, [fillna('Unknown')] on the object
    columns. *)
Definition fill_column (c : Column) : Column :=
  match c with
  | NumCol v => NumCol (map fillna0 v)
  | ObjCol v =>
      ObjCol (map (fun o => match o with
                            | None => Some "Unknown"%string
                            | Some x => Some x
                            end) v)
  | OtherCol v => OtherCol v
  end.

(** [handle_missing_values]: the new table and what is shown; the table
    given is copied first and stays as it is. *)
Definition handle_missing_values (data : Frame) : Frame * list st_event :=
  let df := data in
  let shown := missing_report df in
  (map (fun nc => (fst nc, fill_column (snd nc))) df, shown).

(** Column [new] is column [old] with its missing entries filled: 0 for a
    NaN of a numeric column, ['Unknown'] for a missing text; every other
    entry, infinities included, and every column of another dtype is as it
    was. *)
Definition filled_from (old new : Column) : Prop :=
  match old, new with
  | NumCol v, NumCol v' =>
      Forall2 (fun x y => (x = NaN -> y = Fin 0) /\ (x <> NaN -> y = x)) v v'
  | ObjCol v, ObjCol v' =>
      Forall2 (fun x y => (x = None -> y = Some "Unknown"%string) /\
                          (forall t, x = Some t -> y = Some t)) v v'
  | OtherCol v, OtherCol v' => v' = v
  | _, _ => False
  end.

Definition is_other (c : Column) : bool :=
  match c with
  | OtherCol _ => true
  | _ => false
  end.

(** 1 for a positive value, 0 otherwise (non-finite entries count as 0). *)
Definition positive_indicator (x : fval) : Q :=
  if Qlt_bool 0 (clean x) then 1 else 0.

(** ** [get_trade_summary] *)

(** A row of the cleaned trade table as [get_trade_summary] reads it: the
    trade, its [trade_type] (possibly null) and its [money_value]. *)
Record CleanedTrade : Type := mkCleaned {
  ct_trade : Trade;
  trade_type : option string;
  money_value : Q
}.

(** Keys of a [groupby] on a text column: distinct, ascending. *)
Fixpoint insert_skey (k : string) (ks : list string) : list string :=
  match ks with
  | [] => [k]
  | k' :: r =>
      if String.ltb k k' then k :: ks
      else if String.eqb k k' then ks
      else k' :: insert_skey k r
  end.

Definition group_skeys (ks : list string) : list string :=
  fold_right insert_skey [] ks.

(** One row of the [trade_types] frame. *)
Record TypeSummary : Type := mkTypeSummary {
  ts_Port_IDs : Z;
  ts_trade_type : string;
  ts_count : Z;
  ts_realizedProfit_sum : fval;
  ts_money_value_sum : fval
}.

(** One row of the [positions] frame. *)
Record PositionSummary : Type := mkPosition {
  pos_total_trades : Z;
  pos_winning_trades : Z;
  pos_total_value : fval;
  pos_win_rate : fval;
  pos_avg_trade_size : fval
}.

Definition cleaned_rows (data : list CleanedTrade) (k : Z) : list CleanedTrade :=
  filter (fun r => Z.eqb (Port_IDs (ct_trade r)) k) data.

Definition has_type (ty : string) (r : CleanedTrade) : bool :=
  match trade_type r with
  | Some t => String.eqb t ty
  | None => false
  end.

Definition typed_rows (data : list CleanedTrade) : list CleanedTrade :=
  filter (fun r => negb (is_none (trade_type r))) data.

Definition type_of (r : CleanedTrade) : string :=
  match trade_type r with
  | Some t => t
  | None => EmptyString
  end.

(** [data.groupby(['Port_IDs', 'trade_type']).agg(...).round(2)]: rows
    without a [trade_type] belong to no group. *)
Definition trade_types_of (data : list CleanedTrade) : list TypeSummary :=
  flat_map
    (fun k =>
       let g := cleaned_rows (typed_rows data) k in
       map (fun ty =>
              let gt := filter (has_type ty) g in
              mkTypeSummary k ty (Z.of_nat (length gt))
                (round2 (Fin (Qsum (map (fun r => realizedProfit (ct_trade r)) gt))))
                (round2 (Fin (Qsum (map money_value gt)))))
           (group_skeys (map type_of g)))
    (group_keys (map (fun r => Port_IDs (ct_trade r)) (typed_rows data))).

(** [data.groupby('Port_IDs').agg(...)] with the two derived columns. *)
Definition positions_of (data : list CleanedTrade) : list (Z * PositionSummary) :=
  map (fun k =>
         let g := cleaned_rows data k in
         let total_trades := Z.of_nat (length (typed_rows g)) in
         let winning_trades := count_wins (map ct_trade g) in
         let total_value := Fin (Qsum (map money_value g)) in
         (k, mkPosition total_trades winning_trades total_value
               (round2 (fmul (fdiv (Fin (inject_Z winning_trades))
                                   (Fin (inject_Z total_trades)))
                             (Fin 100)))
               (round2 (fdiv total_value (Fin (inject_Z total_trades))))))
      (group_keys (map (fun r => Port_IDs (ct_trade r)) data)).

(** [get_trade_summary] *)
Definition get_trade_summary (data : list CleanedTrade)
  : list (Z * PositionSummary) * list TypeSummary :=
  let trade_types := trade_types_of data in
  let positions := positions_of data in
  (positions, trade_types).

(** The row of a frame indexed by account. *)
Fixpoint frame_loc {A : Type} (df : list (Z * A)) (k : Z) : option A :=
  match df with
  | [] => None
  | (k', v) :: r => if Z.eqb k' k then Some v else frame_loc r k
  end.

(** A required column can be supplied by one of its alternative names. *)
Definition resolvable (cols : list string) (required_col : string) : bool :=
  existsb (fun alt_name => has_column alt_name cols)
          (mapping_get column_mapping required_col).

(** The required columns that are neither present nor resolvable. *)
Definition unresolved_columns (cols : list string) : list string :=
  filter (fun r => negb (has_column r cols) && negb (resolvable cols r))
         REQUIRED_COLUMNS.

(** * metrics.py on binary64 numbers

    The functions of [src/analysis/metrics.py] once more, now on the
    numbers the program computes with: IEEE 754 binary64, each operation
    rounded to nearest, an overflow giving an infinity, NaN failing every
    comparison.  The table is the list of its rows; the ['date'] column
    that [calculate_sharpe_ratio] writes is taken from the timestamp where
    it is read (the effect on the caller's table is part of the embedding
    above). *)

Module Binary64.

Import PrimFloat.
Local Open Scope float_scope.

Record Trade : Type := mkTrade {
  Port_IDs : Z;
  timestamp : Z;
  price : float;
  quantity : float;
  realizedProfit : float
}.

Definition Series : Type := list (Z * float).

(** Label-aligned access: a label absent from the index reads as NaN. *)
Fixpoint series_get (s : Series) (k : Z) : float :=
  match s with
  | [] => nan
  | (k', v) :: r => if Z.eqb k' k then v else series_get r k
  end.

Definition series_index (s : Series) : list Z := map fst s.

Definition account_rows (df : list Trade) (k : Z) : list Trade :=
  filter (fun t => Z.eqb (Port_IDs t) k) df.

(** [sum()] of a column or of a group: the entries added in row order.
    (pandas adds a group with a running compensation of the rounding
    error.  That gives the same sum where every addition is exact, for a
    group of one row, and for a sum that overflows at its last row: the
    group sums evaluated below are of these kinds.) *)
Definition fsum (l : list float) : float := fold_left add l 0.

(** A row count as a float. *)
Definition float_of_nat (n : nat) : float :=
  of_uint63 (Uint63.of_Z (Z.of_nat n)).

Definition np_where (cond : bool) (a b : float) : float :=
  if cond then a else b.

(** [calculate_roi] *)
Definition roi_of (g : list Trade) : float :=
  let rp := fsum (map realizedProfit g) in
  let q := fsum (map quantity g) in
  np_where (negb (q =? 0)) ((rp / q) * 100) 0.

Definition calculate_roi (df : list Trade) : Series :=
  map (fun k => (k, roi_of (account_rows df k)))
      (group_keys (map Port_IDs df)).

(** [calculate_pnl] *)
Definition calculate_pnl (df : list Trade) : Series :=
  map (fun k => (k, fsum (map realizedProfit (account_rows df k))))
      (group_keys (map Port_IDs df)).

(** [**] on floats is the C library's [pow], which is not one of the
    correctly rounded IEEE operations; it is an interface. *)
Class PowRoutine : Type := {
  np_pow : float -> float -> float
}.

(** [Series.mean()] *)
Definition series_mean (l : list float) : float :=
  fsum l / float_of_nat (length l).

(** [Series.std()], the sample standard deviation ([ddof=1]): the mean,
    then the squared deviations from it; NaN with fewer than two entries. *)
Definition series_std (l : list float) : float :=
  if Nat.leb (length l) 1 then nan
  else
    let count := float_of_nat (length l) in
    let avg := fsum l / count in
    let sqr := map (fun x => (avg - x) * (avg - x)) l in
    sqrt (fsum sqr / (count - 1)).

(** [groupby(['Port_IDs', 'date'])['realizedProfit'].sum().reset_index()] *)
Definition daily_returns (df : list Trade) : list (Z * Z * float) :=
  flat_map
    (fun k =>
       let g := account_rows df k in
       map (fun d =>
              (k, d,
               fsum (map realizedProfit
                         (filter (fun t => Z.eqb (date_of (timestamp t)) d) g))))
           (group_keys (map (fun t => date_of (timestamp t)) g)))
    (group_keys (map Port_IDs df)).

(** The body of the loop of [calculate_sharpe_ratio] for one account. *)
Definition sharpe_of `{PowRoutine} (risk_free_rate : float)
  (port_returns : list float) : float :=
  if Nat.ltb 1 (length port_returns) then
    let daily_rf_rate := np_pow (1 + risk_free_rate) (1 / 365) - 1 in
    let excess_returns := map (fun r => r - daily_rf_rate) port_returns in
    let std := series_std excess_returns in
    if 0 <? std
    then sqrt 365 * (series_mean excess_returns / std)
    else 0
  else 0.

(** [calculate_sharpe_ratio] *)
Definition calculate_sharpe_ratio `{PowRoutine} (df : list Trade)
  (risk_free_rate : float) : Series :=
  let daily := daily_returns df in
  map (fun port_id =>
         let port_returns :=
           map snd (filter (fun r => Z.eqb (fst (fst r)) port_id) daily) in
         (port_id, sharpe_of risk_free_rate port_returns))
      (unique (map (fun r => fst (fst r)) daily)).

Fixpoint scan_from (f : float -> float -> float) (acc : float) (l : list float)
  : list float :=
  match l with
  | [] => []
  | x :: r => f acc x :: scan_from f (f acc x) r
  end.

Definition scan (f : float -> float -> float) (l : list float) : list float :=
  match l with
  | [] => []
  | x :: r => x :: scan_from f x r
  end.

(** The larger and the smaller of two entries, a NaN being passed over. *)
Definition fmax2 (x y : float) : float :=
  if is_nan x then y else if is_nan y then x else if x <=? y then y else x.

Definition fmin2 (x y : float) : float :=
  if is_nan x then y else if is_nan y then x else if x <=? y then x else y.

(** [Series.cumprod()], [Series.expanding().max()], [Series.min()] *)
Definition cumprod (l : list float) : list float := scan mul l.

Definition expanding_max (l : list float) : list float := scan fmax2 l.

Definition series_min (l : list float) : float := fold_right fmin2 nan l.

Definition by_timestamp (a b : Trade) : bool :=
  Z.leb (timestamp a) (timestamp b).

(** [cumulative_returns / rolling_max - 1] *)
Definition drawdowns_of (cumulative_returns rolling_max : list float)
  : list float :=
  map (fun cm => fst cm / snd cm - 1) (combine cumulative_returns rolling_max).

(** The body of the loop of [calculate_mdd], on the sorted rows of one
    account. *)
Definition mdd_of (port_trades : list Trade) : float :=
  if Nat.ltb 0 (length port_trades) then
    let cumulative_returns :=
      cumprod (map (fun t => 1 + realizedProfit t) port_trades) in
    if Nat.ltb 0 (length cumulative_returns) then
      let rolling_max := expanding_max cumulative_returns in
      let drawdowns := drawdowns_of cumulative_returns rolling_max in
      if Nat.ltb 0 (length drawdowns)
      then abs (series_min drawdowns) * 100
      else 0
    else 0
  else 0.

(** [calculate_mdd] *)
Definition calculate_mdd `{SortRoutine} (df : list Trade) : Series :=
  map (fun port_id =>
         (port_id,
          mdd_of (sort_values Trade by_timestamp (account_rows df port_id))))
      (unique (map Port_IDs df)).

Record WinMetrics : Type := mkWin {
  wm_realizedProfit : Series;
  wm_total_positions : Series;
  wm_win_rate : Series
}.

Definition count_wins (g : list Trade) : nat :=
  length (filter (fun t => 0 <? realizedProfit t) g).

Definition win_rate_of (wins total : nat) : float :=
  np_where (Nat.ltb 0 total)
           (float_of_nat wins / float_of_nat total * 100)
           0.

(** [calculate_win_rate] *)
Definition calculate_win_rate (df : list Trade) : WinMetrics :=
  let keys := group_keys (map Port_IDs df) in
  let wins k := count_wins (account_rows df k) in
  let total k := length (account_rows df k) in
  mkWin (map (fun k => (k, float_of_nat (wins k))) keys)
        (map (fun k => (k, float_of_nat (total k))) keys)
        (map (fun k => (k, win_rate_of (wins k) (total k))) keys).

(** One row of the metrics table. *)
Record AccountMetrics : Type := mkMetrics {
  roi : float;
  total_pnl : float;
  sharpe_ratio : float;
  max_drawdown : float;
  win_rate : float;
  win_positions : float;
  total_positions : float
}.

Definition MetricsTable : Type := list (Z * AccountMetrics).

(** [fillna(0)] at one position. *)
Definition fillna0 (x : float) : float := if is_nan x then 0 else x.

Definition fillna_row (m : AccountMetrics) : AccountMetrics :=
  mkMetrics (fillna0 (roi m)) (fillna0 (total_pnl m))
            (fillna0 (sharpe_ratio m)) (fillna0 (max_drawdown m))
            (fillna0 (win_rate m)) (fillna0 (win_positions m))
            (fillna0 (total_positions m)).

(** The default [risk_free_rate=0.02]: the binary64 number written 0.02. *)
Definition default_risk_free_rate : float := 0x1.47ae147ae147bp-6.

(** [calculate_metrics] *)
Definition calculate_metrics `{SortRoutine} `{PowRoutine} (trades_df : list Trade)
  : result MetricsTable :=
  if Nat.eqb (length trades_df) 0 then
    Raise (ValueError "No trade data available for analysis")
  else
    let s_roi := calculate_roi trades_df in
    let s_pnl := calculate_pnl trades_df in
    let s_sharpe := calculate_sharpe_ratio trades_df default_risk_free_rate in
    let s_mdd := calculate_mdd trades_df in
    let index :=
      index_union [series_index s_roi; series_index s_pnl;
                   series_index s_sharpe; series_index s_mdd] in
    let win_metrics := calculate_win_rate trades_df in
    let metrics :=
      map (fun k =>
             (k, mkMetrics (series_get s_roi k) (series_get s_pnl k)
                           (series_get s_sharpe k) (series_get s_mdd k)
                           (series_get (wm_win_rate win_metrics) k)
                           (series_get (wm_realizedProfit win_metrics) k)
                           (series_get (wm_total_positions win_metrics) k)))
          index in
    Ok (map (fun kr => (fst kr, fillna_row (snd kr))) metrics).

(** The row of account [k] as [calculate_metrics] assembles it from the
    five series, before [fillna(0)]. *)
Definition raw_metrics `{SortRoutine} `{PowRoutine} (df : list Trade) (k : Z)
  : AccountMetrics :=
  let win_metrics := calculate_win_rate df in
  mkMetrics (series_get (calculate_roi df) k)
            (series_get (calculate_pnl df) k)
            (series_get (calculate_sharpe_ratio df default_risk_free_rate) k)
            (series_get (calculate_mdd df) k)
            (series_get (wm_win_rate win_metrics) k)
            (series_get (wm_realizedProfit win_metrics) k)
            (series_get (wm_total_positions win_metrics) k).

(** No NaN among the seven entries of a row. *)
Definition no_nan (m : AccountMetrics) : bool :=
  negb (is_nan (roi m)) && negb (is_nan (total_pnl m))
  && negb (is_nan (sharpe_ratio m)) && negb (is_nan (max_drawdown m))
  && negb (is_nan (win_rate m)) && negb (is_nan (win_positions m))
  && negb (is_nan (total_positions m)).

(** The power the engine takes at the default rate, [1.02 ** (1/365)]:
    the binary64 number nearest to the exact power, which is what the C
    library returns.  No other power is taken; it reads as NaN here. *)
Definition pow_at_default_rate (x y : float) : float :=
  if (x =? 1 + default_risk_free_rate) && (y =? 1 / 365)
  then 0x1.00038e4080f09p+0
  else nan.

Definition default_pow : PowRoutine := {| np_pow := pow_at_default_rate |}.

(** One account, two trades on one day with a realized profit of [2^1023]
    (about 9e307) each: their sum is beyond the largest binary64 number. *)
Definition overflow_trades : list Trade :=
  [mkTrade 1 0 1 1 0x1p+1023; mkTrade 1 1000 1 1 0x1p+1023].

(** The binary64 number written 0.1. *)
Definition one_tenth : float := 0x1.999999999999ap-4.

(** One account with one trade a day on three successive days, each with
    a realized profit of 0.1. *)
Definition constant_trades : list Trade :=
  [mkTrade 7 0 1 1 one_tenth; mkTrade 7 86400000 1 1 one_tenth;
   mkTrade 7 172800000 1 1 one_tenth].

(** One account with 55 successive trades that each lose one half. *)
Definition halving_trades : list Trade :=
  map (fun i => mkTrade 3 (Z.of_nat i) 1 1 (-0.5)) (seq 0 55).

End Binary64.

(** ** Sample tables *)

(** One account, one trade that loses exactly the whole unit. *)
Definition single_loss_trades : list Trade :=
  [mkTrade 1 0 1 1 (-1)].

(** One account with the successive realized profits [1, -1.6]. *)
Definition deep_loss_trades : list Trade :=
  [mkTrade 7 1000 1 1 1; mkTrade 7 2000 1 1 (-16 # 10)].

(** Two accounts over two days. *)
Definition sample_trades : list Trade :=
  [mkTrade 2 0 10 2 (5 # 10); mkTrade 1 0 10 1 (-2 # 10);
   mkTrade 2 86400000 10 2 (-1 # 10); mkTrade 1 90000000 10 3 (4 # 10)].

(** Two accounts with the same single trade, the account with the larger
    id first in the table. *)
Definition mirror_trades : list Trade :=
  [mkTrade 2 0 10 1 (5 # 10); mkTrade 1 0 10 1 (5 # 10)].

(** Three accounts with total PnL 100, -50 and 100 and otherwise identical
    metrics: the first and the third tie on every column. *)
Definition tied_metrics : MetricsTable :=
  [(101%Z, mkMetrics (Fin 5) (Fin 100) (Fin 1) (Fin 10) (Fin 50) (Fin 1) (Fin 2));
   (102%Z, mkMetrics (Fin 5) (Fin (-50)) (Fin 1) (Fin 10) (Fin 50) (Fin 1) (Fin 2));
   (103%Z, mkMetrics (Fin 5) (Fin 100) (Fin 1) (Fin 10) (Fin 50) (Fin 1) (Fin 2))].

(** The accounts and the scores of a ranking, in rank order. *)
Definition ranked_ids (r : result (list RankedEntry)) : list Z :=
  match r with
  | Ok out => map (fun e => r_Port_IDs (entry e)) out
  | Raise _ => []
  end.

Definition ranked_scores (r : result (list RankedEntry)) : list fval :=
  match r with
  | Ok out => map (fun e => Score (entry e)) out
  | Raise _ => []
  end.

(** ** Instances of the library interfaces *)

(** Insertion sort placing a row before the first row it may precede:
    rows that compare equal stay in input order. *)
Fixpoint insert_before {A : Type} (leb : A -> A -> bool) (x : A) (l : list A)
  : list A :=
  match l with
  | [] => [x]
  | y :: r => if leb x y then x :: l else y :: insert_before leb x r
  end.

Definition insertion_sort {A : Type} (leb : A -> A -> bool) (l : list A)
  : list A :=
  fold_right (insert_before leb) [] l.

(** A rational lower approximation of the square root, to six decimals. *)
Definition approx_sqrt (x : Q) : Q :=
  inject_Z (Z.sqrt (Qfloor (x * 1000000000000))) / 1000000.

(** A rational stand-in for [x ** y]: the tangent at [y = 0] for [x] near 1. *)
Definition approx_pow (x y : Q) : Q := 1 + y * (x - 1).

(** * Properties *)

(** ** Sorting instances *)

Section SortInstances.

Context {A : Type} (leb : A -> A -> bool).

Lemma insert_before_perm (x : A) (l : list A) :
  Permutation (insert_before leb x l) (x :: l).
Proof.
  induction l as [|y r IH]; simpl; [reflexivity|].
  destruct (leb x y); [reflexivity|].
  rewrite IH. apply perm_swap.
Qed.

Lemma insertion_sort_perm (l : list A) : Permutation (insertion_sort leb l) l.
Proof.
  induction l as [|x r IH]; simpl; [constructor|].
  rewrite insert_before_perm. now constructor.
Qed.

Hypothesis leb_total : forall x y, leb x y = true \/ leb y x = true.
Hypothesis leb_trans :
  forall x y z, leb x y = true -> leb y z = true -> leb x z = true.

Let ord (x y : A) : Prop := leb x y = true.

Lemma insert_before_sorted (x : A) (l : list A) :
  StronglySorted ord l -> StronglySorted ord (insert_before leb x l).
Proof.
  induction 1 as [|y r Hs IH Hy]; simpl.
  - repeat constructor.
  - destruct (leb x y) eqn:E.
    + constructor; [now constructor|].
      constructor; [exact E|].
      eapply Forall_impl; [|exact Hy]. intros z Hz. eapply leb_trans; eauto.
    + constructor; [exact IH|].
      assert (Hyx : ord y x) by (destruct (leb_total x y); congruence).
      eapply Permutation_Forall; [symmetry; apply insert_before_perm|].
      now constructor.
Qed.

Lemma insertion_sort_sorted (l : list A) : StronglySorted ord (insertion_sort leb l).
Proof.
  induction l as [|x r IH]; simpl; [constructor|].
  now apply insert_before_sorted.
Qed.



End SortInstances.

#[export] Instance stable_sorter : SortRoutine := {|
  sort_values := @insertion_sort;
  sort_values_perm := @insertion_sort_perm;
  sort_values_sorted :=
    fun A leb l Htot Htr => insertion_sort_sorted leb Htot Htr l
|}.


Lemma approx_sqrt_nonneg (x : Q) : 0 <= approx_sqrt x.
Proof.
  unfold approx_sqrt.
  apply Qle_shift_div_l; [reflexivity|].
  rewrite Qmult_0_l.
  change 0 with (inject_Z 0). rewrite <- Zle_Qle. apply Z.sqrt_nonneg.
Qed.

#[export] Instance approx_fns : RealFns := {|
  np_sqrt := approx_sqrt;
  np_pow := approx_pow;
  np_sqrt_nonneg := approx_sqrt_nonneg
|}.

(** ** Comparisons on rationals *)

Lemma Qeq_bool_spec (a b : Q) : reflect (a == b) (Qeq_bool a b).
Proof.
  destruct (Qeq_bool a b) eqn:E; constructor.
  - now apply Qeq_bool_iff.
  - intro H. apply Qeq_bool_iff in H. congruence.
Qed.

Lemma Qle_bool_spec (a b : Q) : reflect (a <= b) (Qle_bool a b).
Proof.
  destruct (Qle_bool a b) eqn:E; constructor.
  - now apply Qle_bool_iff.
  - intro H. apply Qle_bool_iff in H. congruence.
Qed.

Lemma Qlt_bool_spec (a b : Q) : reflect (a < b) (Qlt_bool a b).
Proof.
  unfold Qlt_bool. destruct (Qle_bool_spec b a); constructor; lra.
Qed.

(** Case analysis on the first rational comparison found in the goal. *)
Ltac qcase :=
  match goal with
  | |- context [Qeq_bool ?a ?b] => destruct (Qeq_bool_spec a b)
  | |- context [Qlt_bool ?a ?b] => destruct (Qlt_bool_spec a b)
  | |- context [Qle_bool ?a ?b] => destruct (Qle_bool_spec a b)
  end.

(** ** Grouping keys and label access *)

Lemma insert_key_In (k x : Z) (ks : list Z) :
  In x (insert_key k ks) <-> x = k \/ In x ks.
Proof.
  induction ks as [|k' r IH]; simpl.
  - intuition.
  - destruct (Z.ltb_spec k k'); [simpl; intuition|].
    destruct (Z.eqb_spec k k'); [subst; simpl; intuition|].
    simpl. rewrite IH. intuition.
Qed.

Lemma group_keys_In (x : Z) (l : list Z) : In x (group_keys l) <-> In x l.
Proof.
  induction l as [|k r IH]; simpl; [reflexivity|].
  rewrite insert_key_In, IH. intuition.
Qed.

Lemma insert_key_sorted (k : Z) (ks : list Z) :
  StronglySorted Z.lt ks -> StronglySorted Z.lt (insert_key k ks).
Proof.
  induction 1 as [|k' r Hs IH Hk']; simpl.
  - repeat constructor.
  - destruct (Z.ltb_spec k k').
    + constructor; [now constructor|].
      constructor; [assumption|].
      eapply Forall_impl; [|exact Hk']. intros; lia.
    + destruct (Z.eqb_spec k k'); [now constructor|].
      constructor; [exact IH|].
      apply Forall_forall. intros x Hx. apply insert_key_In in Hx.
      destruct Hx as [->|Hx]; [lia|].
      rewrite Forall_forall in Hk'. now apply Hk'.
Qed.

Lemma group_keys_sorted (l : list Z) : StronglySorted Z.lt (group_keys l).
Proof.
  induction l; simpl; [constructor|]. now apply insert_key_sorted.
Qed.

Lemma sorted_lt_NoDup (l : list Z) : StronglySorted Z.lt l -> NoDup l.
Proof.
  induction 1 as [|k r Hs IH Hk]; constructor; [|exact IH].
  intro Hin. rewrite Forall_forall in Hk. specialize (Hk _ Hin). lia.
Qed.

Lemma group_keys_NoDup (l : list Z) : NoDup (group_keys l).
Proof. apply sorted_lt_NoDup, group_keys_sorted. Qed.

(** Two ascending lists without repeats that hold the same labels are the
    same list. *)
Lemma sorted_lt_unique (l l' : list Z) :
  StronglySorted Z.lt l -> StronglySorted Z.lt l' ->
  (forall x, In x l <-> In x l') -> l = l'.
Proof.
  intros Hl. revert l'. induction Hl as [|a r Hs IH Ha]; intros l' Hl' Heq.
  - destruct l' as [|b r']; [reflexivity|].
    exfalso. apply (Heq b). now left.
  - destruct Hl' as [|b r' Hs' Hb].
    + exfalso. apply (Heq a). now left.
    + rewrite Forall_forall in Ha, Hb.
      assert (a = b).
      { assert (Ia : In a (b :: r')) by (apply Heq; now left).
        assert (Ib : In b (a :: r)) by (apply Heq; now left).
        destruct Ia as [->|Ia]; [reflexivity|].
        destruct Ib as [->|Ib]; [reflexivity|].
        specialize (Ha _ Ib). specialize (Hb _ Ia). lia. }
      subst b. f_equal. apply IH; [exact Hs'|].
      intros x; split; intros Hx.
      * assert (Hx' : In x (a :: r')) by (apply Heq; now right).
        destruct Hx' as [->|Hx']; [|exact Hx'].
        specialize (Ha _ Hx). lia.
      * assert (Hx' : In x (a :: r)) by (apply Heq; now right).
        destruct Hx' as [->|Hx']; [|exact Hx'].
        specialize (Hb _ Hx). lia.
Qed.

Lemma unique_In (x : Z) (l : list Z) : In x (unique l) <-> In x l.
Proof.
  induction l as [|k r IH]; simpl; [reflexivity|].
  rewrite filter_In, IH.
  destruct (Z.eqb_spec x k); simpl; intuition congruence.
Qed.

Lemma unique_NoDup (l : list Z) : NoDup (unique l).
Proof.
  induction l as [|k r IH]; simpl; constructor.
  - rewrite filter_In. intros [_ H]. now rewrite Z.eqb_refl in H.
  - now apply NoDup_filter.
Qed.

Lemma series_get_map (f : Z -> fval) (keys : list Z) (k : Z) :
  In k keys -> series_get (map (fun x => (x, f x)) keys) k = f k.
Proof.
  induction keys as [|a r IH]; simpl; [tauto|].
  intros H. destruct (Z.eqb_spec a k); [now subst|].
  apply IH. destruct H; congruence.
Qed.


Lemma series_index_map (f : Z -> fval) (keys : list Z) :
  series_index (map (fun x => (x, f x)) keys) = keys.
Proof.
  unfold series_index. rewrite map_map. simpl. apply map_id.
Qed.

Lemma account_rows_nonempty (df : list Trade) (k : Z) :
  In k (map Port_IDs df) -> account_rows df k <> [].
Proof.
  intros H. apply in_map_iff in H. destruct H as [t [<- Ht]].
  intro E. assert (In t (account_rows df (Port_IDs t))).
  { apply filter_In. split; [exact Ht|apply Z.eqb_refl]. }
  rewrite E in H. contradiction.
Qed.

(** ** Return on investment *)

(** C9.  For every account of the trade table, [calculate_roi] gives
    [100 * sum(realized_profit) / sum(quantity)] over the account's trades
    when the summed quantity is not zero, and 0 when it is zero. *)
Theorem calculate_roi_correct (df : list Trade) (k : Z) :
  In k (map Port_IDs df) ->
  let g := account_rows df k in
  let volume := Qsum (map quantity g) in
  let profit := Qsum (map realizedProfit g) in
  (~ volume == 0 ->
   feq (series_get (calculate_roi df) k) (Fin (100 * profit / volume))) /\
  (volume == 0 -> series_get (calculate_roi df) k = Fin 0) /\
  feq (series_get (calculate_roi df) k) (Fin (roi_spec g)).
Proof.
  intros Hk g volume profit.
  unfold calculate_roi.
  rewrite (series_get_map (fun k => roi_of (account_rows df k)))
    by now apply group_keys_In.
  fold g. unfold roi_of, roi_spec, np_where, fdiv. fold volume profit.
  destruct (Qeq_bool_spec volume 0) as [Hz|Hz]; simpl.
  - split; [tauto|]. split; [reflexivity|]. reflexivity.
  - split; [|split; [tauto|]].
    + intros _. field. exact Hz.
    + field. exact Hz.
Qed.

Lemma calculate_roi_correct_witness :
  In 2%Z (map Port_IDs sample_trades) /\
  ~ Qsum (map quantity (account_rows sample_trades 2)) == 0 /\
  feq (series_get (calculate_roi sample_trades) 2)
      (Fin (100 * Qsum (map realizedProfit (account_rows sample_trades 2))
            / Qsum (map quantity (account_rows sample_trades 2)))).
Proof.
  assert (Hin : In 2%Z (map Port_IDs sample_trades)) by (simpl; auto).
  assert (Hvol : ~ Qsum (map quantity (account_rows sample_trades 2)) == 0)
    by (vm_compute; discriminate).
  split; [exact Hin|]. split; [exact Hvol|].
  exact (proj1 (calculate_roi_correct sample_trades 2 Hin) Hvol).
Defined.

(** ** Running accumulations *)

Lemma scan_from_prefix (f : Q -> Q -> Q) (l : list Q) (acc : Q) :
  scan_from f acc l =
  map (fun t => fold_left f (firstn (S t) l) acc) (seq 0 (length l)).
Proof.
  revert acc. induction l as [|x r IH]; intros acc; [reflexivity|].
  cbn [scan_from length seq map firstn fold_left]. f_equal.
  rewrite IH, <- seq_shift, map_map. reflexivity.
Qed.

Lemma scan_prefix (f : Q -> Q -> Q) (l : list Q) :
  scan f l = map (prefix_fold f l) (seq 0 (length l)).
Proof.
  destruct l as [|x r]; [reflexivity|].
  unfold scan. rewrite scan_from_prefix.
  cbn [length seq map]. f_equal.
  rewrite <- seq_shift, map_map. reflexivity.
Qed.

Lemma scan_length (f : Q -> Q -> Q) (l : list Q) : length (scan f l) = length l.
Proof. rewrite scan_prefix. now rewrite length_map, length_seq. Qed.

Lemma combine_map_same {A B C : Type} (f : A -> B) (g : A -> C) (l : list A) :
  combine (map f l) (map g l) = map (fun x => (f x, g x)) l.
Proof. induction l; simpl; congruence. Qed.

(** The drawdown series of the code is the series of the specification. *)
Lemma drawdowns_of_spec (profits : list Q) :
  let cum := cumprod (map (fun p => 1 + p) profits) in
  drawdowns_of cum (expanding_max cum) =
  map (drawdown_at profits) (seq 0 (length profits)).
Proof.
  intros cum.
  assert (Hcum : cum = map (cum_at profits) (seq 0 (length profits))).
  { unfold cum, cumprod. rewrite scan_prefix, length_map. reflexivity. }
  unfold drawdowns_of, expanding_max.
  rewrite scan_prefix. clearbody cum. subst cum.
  rewrite length_map, length_seq, combine_map_same, map_map.
  reflexivity.
Qed.

(** ** Maximum drawdown *)

Lemma mdd_of_spec (ts : list Trade) :
  ts <> [] -> mdd_of ts = mdd_spec (map realizedProfit ts).
Proof.
  intros Hne. unfold mdd_of, mdd_spec.
  assert (Hlen : Nat.ltb 0 (length ts) = true).
  { destruct ts; [congruence|reflexivity]. }
  rewrite Hlen.
  replace (map (fun t => 1 + realizedProfit t) ts)
    with (map (fun p => 1 + p) (map realizedProfit ts))
    by (rewrite map_map; reflexivity).
  unfold cumprod at 1. rewrite scan_length, !length_map, Hlen.
  rewrite drawdowns_of_spec.
  now rewrite length_map, length_seq, length_map, Hlen.
Qed.

Lemma drawdown_step_not_inf (c m : Q) :
  (m == 0 -> c == 0) -> not_inf (fsub (fdiv (Fin c) (Fin m)) (Fin 1)).
Proof.
  intros H. unfold fdiv.
  destruct (Qeq_bool_spec m 0) as [Hm|Hm]; [|exact I].
  destruct (Qeq_bool_spec c 0) as [Hc|Hc]; [exact I|].
  elim Hc. auto.
Qed.

Lemma drawdowns_from_not_inf (l : list Q) (c m : Q) :
  (m == 0 -> c == 0) ->
  Forall not_inf
    (drawdowns_of (scan_from Qmult c l)
                  (scan_from Qmax2 m (scan_from Qmult c l))).
Proof.
  revert c m. induction l as [|x r IH]; intros c m Hinv; [constructor|].
  assert (Hinv' : Qmax2 m (c * x) == 0 -> c * x == 0).
  { unfold Qmax2. destruct (Qle_bool_spec m (c * x)) as [Hle|Hle]; [tauto|].
    intros Hm. specialize (Hinv Hm). rewrite Hinv in Hle |- *.
    rewrite Qmult_0_l in Hle |- *. lra. }
  cbn [scan_from]. unfold drawdowns_of. cbn [combine map fst snd].
  constructor.
  - now apply drawdown_step_not_inf.
  - now apply IH.
Qed.

Lemma drawdowns_not_inf (factors : list Q) :
  Forall not_inf (drawdowns_of (cumprod factors) (expanding_max (cumprod factors))).
Proof.
  destruct factors as [|x r]; [constructor|].
  unfold cumprod, expanding_max. cbn [scan].
  unfold drawdowns_of. cbn [combine map fst snd]. constructor.
  - apply drawdown_step_not_inf. tauto.
  - apply drawdowns_from_not_inf. tauto.
Qed.

Lemma fmin2_not_inf (x y : fval) : not_inf x -> not_inf y -> not_inf (fmin2 x y).
Proof.
  destruct x, y; simpl; try tauto. intros _ _. now destruct (Qle_bool q q0).
Qed.

Lemma series_min_not_inf (l : list fval) :
  Forall not_inf l -> not_inf (series_min l).
Proof.
  induction 1; simpl; [exact I|]. now apply fmin2_not_inf.
Qed.

Lemma abs_times_100 (x : fval) :
  not_inf x -> nan_or_nonneg (fmul (fabs x) (Fin 100)).
Proof.
  destruct x as [q| | |]; simpl; try tauto.
  - intros _. right. eexists. split; [reflexivity|].
    pose proof (Qabs_nonneg q). nra.
  - intros _. now left.
Qed.

(** What the loop body of [calculate_mdd] yields: NaN or a non-negative
    number, never an infinity. *)
Lemma mdd_of_range (ts : list Trade) : nan_or_nonneg (mdd_of ts).
Proof.
  unfold mdd_of.
  destruct (Nat.ltb 0 (length ts)); [|right; exists 0; split; [reflexivity|lra]].
  destruct (Nat.ltb 0 _); [|right; exists 0; split; [reflexivity|lra]].
  destruct (Nat.ltb 0 _); [|right; exists 0; split; [reflexivity|lra]].
  apply abs_times_100, series_min_not_inf, drawdowns_not_inf.
Qed.

Lemma fillna0_nonneg (x : fval) :
  nan_or_nonneg x -> exists q, fillna0 x = Fin q /\ 0 <= q.
Proof.
  intros [->|[q [-> Hq]]]; simpl; [exists 0; split; [reflexivity|lra]|eauto].
Qed.

(** A single trade: the drawdown is [c / c - 1] with [c = 1 + profit]. *)
Lemma mdd_of_single (t : Trade) :
  (1 + realizedProfit t == 0 -> mdd_of [t] = NaN) /\
  (~ 1 + realizedProfit t == 0 -> feq (mdd_of [t]) (Fin 0)) /\
  feq (fillna0 (mdd_of [t])) (Fin 0).
Proof.
  unfold mdd_of. cbn -[Qeq_bool Qabs Qmult Qdiv Qplus Qopp].
  destruct (Qeq_bool_spec (1 + realizedProfit t) 0) as [Hz|Hz];
    cbn -[Qabs Qmult Qdiv Qplus Qopp].
  - repeat split; try tauto; reflexivity.
  - assert (E : Qabs ((1 + realizedProfit t) / (1 + realizedProfit t) + - (1)) * 100 == 0).
    { setoid_replace ((1 + realizedProfit t) / (1 + realizedProfit t) + - (1))
        with 0 by (field; exact Hz).
      reflexivity. }
    repeat split; try tauto; intros; exact E.
Qed.

Lemma sort_values_nonempty `{SortRoutine} (A : Type) (leb : A -> A -> bool)
  (l : list A) : l <> [] -> sort_values A leb l <> [].
Proof.
  intros Hne E. pose proof (sort_values_perm A leb l) as P.
  rewrite E in P. apply Permutation_nil in P. contradiction.
Qed.

Lemma sort_values_single `{SortRoutine} (A : Type) (leb : A -> A -> bool)
  (x : A) : sort_values A leb [x] = [x].
Proof.
  apply Permutation_length_1_inv. symmetry. apply sort_values_perm.
Qed.

Lemma calculate_mdd_get `{SortRoutine} (df : list Trade) (k : Z) :
  In k (map Port_IDs df) ->
  series_get (calculate_mdd df) k =
  mdd_of (sort_values Trade by_timestamp (account_rows df k)).
Proof.
  intros Hk. unfold calculate_mdd.
  rewrite (series_get_map
             (fun k => mdd_of (sort_values Trade by_timestamp (account_rows df k))));
    [reflexivity|now apply unique_In].
Qed.

(** ** The metrics table *)

Lemma combine_map_r {A B : Type} (f : A -> B) (l : list A) :
  combine l (map f l) = map (fun x => (x, f x)) l.
Proof. induction l; simpl; congruence. Qed.

Lemma dated_rows_with_date (tf : TradeFrame) :
  dated_rows (with_date_column tf) =
  map (fun t => (t, date_of (timestamp t))) (rows tf).
Proof. unfold dated_rows, with_date_column. simpl. apply combine_map_r. Qed.

Lemma group_keys_nonempty (l : list Z) : l <> [] -> group_keys l <> [].
Proof.
  destruct l as [|x r]; [congruence|]. intros _ E.
  assert (Hin : In x (group_keys (x :: r))) by (apply group_keys_In; now left).
  rewrite E in Hin. contradiction.
Qed.

Lemma daily_returns_ports (dr : list (Trade * Z)) (k : Z) :
  In k (map (fun r => fst (fst r)) (daily_returns dr)) <->
  In k (map (fun td => Port_IDs (fst td)) dr).
Proof.
  unfold daily_returns. rewrite in_map_iff. split.
  - intros [r [<- Hr]]. apply in_flat_map in Hr. destruct Hr as [k' [Hk' Hr]].
    apply in_map_iff in Hr. destruct Hr as [d [<- _]]. cbn [fst].
    rewrite group_keys_In in Hk'. exact Hk'.
  - intros Hk.
    set (g := filter (fun td => Z.eqb (Port_IDs (fst td)) k) dr).
    assert (Hg : map snd g <> []).
    { apply in_map_iff in Hk. destruct Hk as [td [E Htd]].
      assert (In td g) by (apply filter_In; split; [exact Htd|now apply Z.eqb_eq]).
      destruct g; [contradiction|discriminate]. }
    apply group_keys_nonempty in Hg.
    destruct (group_keys (map snd g)) as [|d ds] eqn:Ed; [congruence|].
    eexists. split; [|apply in_flat_map; exists k; split;
                       [now apply group_keys_In|]].
    2:{ fold g. rewrite Ed. left. reflexivity. }
    reflexivity.
Qed.

Lemma calculate_sharpe_ratio_index `{RealFns} (tf : TradeFrame) (rf : Q) (k : Z) :
  In k (series_index (fst (calculate_sharpe_ratio tf rf))) <->
  In k (map Port_IDs (rows tf)).
Proof.
  unfold calculate_sharpe_ratio. fold (with_date_column tf). cbn [fst].
  rewrite (series_index_map
             (fun port_id =>
                sharpe_of rf
                  (map snd
                     (filter (fun r => Z.eqb (fst (fst r)) port_id)
                        (daily_returns (dated_rows (with_date_column tf))))))).
  rewrite unique_In, daily_returns_ports, dated_rows_with_date, map_map.
  reflexivity.
Qed.

Lemma calculate_sharpe_ratio_frame `{RealFns} (tf : TradeFrame) (rf : Q) :
  snd (calculate_sharpe_ratio tf rf) = with_date_column tf.
Proof. reflexivity. Qed.

Lemma metrics_index `{SortRoutine} `{RealFns} (tf : TradeFrame) :
  index_union
    [series_index (calculate_roi (rows tf));
     series_index (calculate_pnl (rows tf));
     series_index (fst (calculate_sharpe_ratio tf default_risk_free_rate));
     series_index (calculate_mdd (rows tf))] =
  group_keys (map Port_IDs (rows tf)).
Proof.
  apply sorted_lt_unique; try apply group_keys_sorted.
  intros k. unfold index_union. rewrite !group_keys_In.
  cbn [concat]. rewrite !in_app_iff.
  rewrite calculate_sharpe_ratio_index.
  unfold calculate_roi, calculate_pnl, calculate_mdd.
  rewrite (series_index_map (fun k => roi_of (account_rows (rows tf) k))).
  rewrite (series_index_map
             (fun k => Fin (Qsum (map realizedProfit (account_rows (rows tf) k))))).
  rewrite (series_index_map
             (fun k => mdd_of (sort_values Trade by_timestamp
                                 (account_rows (rows tf) k)))).
  rewrite unique_In, group_keys_In. simpl. tauto.
Qed.

(** On a table with at least one row [calculate_metrics] returns: the
    table it builds has the accounts in ascending order, each row filled
    from the five series, and the caller's table is left with a ['date']
    column. *)
Lemma calculate_metrics_ok `{SortRoutine} `{RealFns} (tf : TradeFrame) :
  rows tf <> [] ->
  calculate_metrics tf =
  (Ok (map (fun k => (k, fillna_row (raw_metrics tf k)))
           (group_keys (map Port_IDs (rows tf)))),
   with_date_column tf).
Proof.
  intros Hne. unfold calculate_metrics.
  destruct (rows tf) as [|t r] eqn:Er; [congruence|]. cbn [length Nat.eqb].
  rewrite <- Er.
  rewrite (surjective_pairing (calculate_sharpe_ratio tf default_risk_free_rate)).
  rewrite calculate_sharpe_ratio_frame. cbn [rows with_date_column].
  rewrite metrics_index, map_map. reflexivity.
Qed.

(** ** Column means and deviations *)

Lemma Qlen_pos {A : Type} (l : list A) : (0 < length l)%nat -> 0 < Qlen l.
Proof.
  intros Hl. unfold Qlen. change 0 with (inject_Z 0). rewrite <- Zlt_Qlt. lia.
Qed.

Lemma series_mean_finite (l : list Q) :
  (0 < length l)%nat -> series_mean l = Fin (Qmean l).
Proof.
  intros Hl. unfold series_mean, Qmean, fdiv.
  pose proof (Qlen_pos l Hl).
  destruct (Qeq_bool_spec (Qlen l) 0); [lra|reflexivity].
Qed.

Lemma series_std_value `{RealFns} (l : list Q) :
  (1 < length l)%nat ->
  series_std l = Fin (np_sqrt (sq_dev l / (Qlen l - 1))).
Proof.
  intros Hl. unfold series_std.
  destruct (Nat.leb_spec (length l) 1); [lia|reflexivity].
Qed.

(** ** Maximum drawdown, account by account *)

Lemma by_timestamp_total (a b : Trade) :
  by_timestamp a b = true \/ by_timestamp b a = true.
Proof. unfold by_timestamp. rewrite !Z.leb_le. lia. Qed.

Lemma by_timestamp_trans (a b c : Trade) :
  by_timestamp a b = true -> by_timestamp b c = true -> by_timestamp a c = true.
Proof. unfold by_timestamp. rewrite !Z.leb_le. lia. Qed.

Lemma sort_by_timestamp_sorted `{SortRoutine} (l : list Trade) :
  StronglySorted (fun a b => (timestamp a <= timestamp b)%Z)
                 (sort_values Trade by_timestamp l).
Proof.
  pose proof (sort_values_sorted Trade by_timestamp l
                by_timestamp_total by_timestamp_trans) as Hs.
  induction Hs as [|a r Hs IH Ha]; constructor; [exact IH|].
  eapply Forall_impl; [|exact Ha]. intros b Hb. now apply Z.leb_le.
Qed.

(** Two rows already in strict time order come back as they are. *)
Lemma sort_by_timestamp_pair `{SortRoutine} (a b : Trade) :
  (timestamp a < timestamp b)%Z ->
  sort_values Trade by_timestamp [a; b] = [a; b].
Proof.
  intros Hlt.
  pose proof (sort_values_perm Trade by_timestamp [a; b]) as P.
  pose proof (sort_by_timestamp_sorted [a; b]) as Hs.
  apply Permutation_sym, Permutation_length_2_inv in P.
  destruct P as [E|E]; [exact E|]. rewrite E in Hs.
  inversion Hs as [|? ? _ Hall]; subst. inversion Hall; subst. lia.
Qed.

(** C8, as the code has it.  For every account, [calculate_mdd] takes the
    account's trades in timestamp order and returns
    [100 * abs(min(drawdown))] over the drawdown series
    [cum_t / running_max_t - 1]; the value is a non-negative number, or NaN
    when no drawdown is defined.  In the table of [calculate_metrics] the
    [max_drawdown] entry is that value with NaN replaced by 0: it is
    always a number [>= 0], and it is 0 for an account with a single
    trade. *)
Theorem calculate_mdd_correct `{SortRoutine} `{RealFns} (tf : TradeFrame) (k : Z) :
  In k (map Port_IDs (rows tf)) ->
  let v := series_get (calculate_mdd (rows tf)) k in
  (exists ts : list Trade,
      Permutation ts (account_rows (rows tf) k) /\
      StronglySorted (fun a b => (timestamp a <= timestamp b)%Z) ts /\
      v = mdd_spec (map realizedProfit ts)) /\
  nan_or_nonneg v /\
  exists (table : MetricsTable) (r : AccountMetrics),
    fst (calculate_metrics tf) = Ok table /\
    In (k, r) table /\
    (forall r', In (k, r') table -> r' = r) /\
    max_drawdown r = fillna0 v /\
    (exists q, max_drawdown r = Fin q /\ 0 <= q) /\
    (length (account_rows (rows tf) k) = 1%nat -> feq (max_drawdown r) (Fin 0)).
Proof.
  intros Hk v.
  assert (Hv : v = mdd_of (sort_values Trade by_timestamp (account_rows (rows tf) k))).
  { unfold v. now apply calculate_mdd_get. }
  assert (Hne : rows tf <> []) by (destruct (rows tf); [contradiction|discriminate]).
  split; [|split].
  - exists (sort_values Trade by_timestamp (account_rows (rows tf) k)).
    split; [apply sort_values_perm|]. split; [apply sort_by_timestamp_sorted|].
    rewrite Hv. apply mdd_of_spec, sort_values_nonempty.
    now apply account_rows_nonempty.
  - rewrite Hv. apply mdd_of_range.
  - rewrite (calculate_metrics_ok tf Hne). cbn [fst].
    eexists. exists (fillna_row (raw_metrics tf k)).
    split; [reflexivity|]. split; [|split; [|split; [|split]]].
    + apply in_map_iff. exists k. split; [reflexivity|now apply group_keys_In].
    + intros r' Hr'. apply in_map_iff in Hr'. destruct Hr' as [k' [E _]].
      now inversion E; subst.
    + reflexivity.
    + cbn [fillna_row raw_metrics max_drawdown]. fold v.
      apply fillna0_nonneg. rewrite Hv. apply mdd_of_range.
    + intros Hlen. cbn [fillna_row raw_metrics max_drawdown]. fold v. rewrite Hv.
      destruct (account_rows (rows tf) k) as [|t [|t' r]]; try discriminate.
      rewrite sort_values_single. apply mdd_of_single.
Qed.

Lemma calculate_mdd_correct_witness :
  In 1%Z (map Port_IDs single_loss_trades) /\
  exists (table : MetricsTable) (r : AccountMetrics),
    fst (calculate_metrics (mkFrame single_loss_trades None)) = Ok table /\
    In (1%Z, r) table /\
    feq (max_drawdown r) (Fin 0).
Proof.
  assert (Hin : In 1%Z (map Port_IDs (rows (mkFrame single_loss_trades None))))
    by (simpl; auto).
  split; [exact Hin|].
  destruct (calculate_mdd_correct (mkFrame single_loss_trades None) 1 Hin)
    as [_ [_ [table [r [Ht [Hi [_ [_ [_ Hone]]]]]]]]].
  exists table, r. split; [exact Ht|]. split; [exact Hi|].
  apply Hone. reflexivity.
Defined.

(** C8, as stated, fails on a single trade whose realized profit is -1:
    the only drawdown is 0/0, and [calculate_mdd] returns NaN, which is
    neither [>= 0] nor 0. *)
Lemma calculate_mdd_single_loss_nan :
  length (account_rows single_loss_trades 1) = 1%nat /\
  series_get (calculate_mdd single_loss_trades) 1 = NaN /\
  ~ (exists q, series_get (calculate_mdd single_loss_trades) 1 = Fin q /\ 0 <= q).
Proof.
  split; [reflexivity|]. split; [reflexivity|].
  intros [q [E _]]. vm_compute in E. discriminate.
Qed.

(** C10.  [max_drawdown] is not bounded by 100: the account whose two
    trades realize 1 and then -1.6 has a trade below -1, its cumulative
    product turns negative, and both [calculate_mdd] and the metrics table
    give it 160. *)
Theorem max_drawdown_exceeds_100 `{SortRoutine} `{RealFns} :
  Exists (fun t => realizedProfit t < -1) deep_loss_trades /\
  map realizedProfit (sort_values Trade by_timestamp (account_rows deep_loss_trades 7))
  = [1; -16 # 10] /\
  cum_at [1; -16 # 10] 1 < 0 /\
  (exists q, series_min (map (drawdown_at [1; -16 # 10]) (seq 0 2)) = Fin q /\ q < -1) /\
  (exists q, series_get (calculate_mdd deep_loss_trades) 7 = Fin q /\
             q == 160 /\ 100 < q) /\
  (exists table r,
      fst (calculate_metrics (mkFrame deep_loss_trades None)) = Ok table /\
      In (7%Z, r) table /\
      exists q, max_drawdown r = Fin q /\ q == 160 /\ 100 < q).
Proof.
  assert (Hs : sort_values Trade by_timestamp (account_rows deep_loss_trades 7)
               = deep_loss_trades).
  { apply sort_by_timestamp_pair. reflexivity. }
  assert (Hv : series_get (calculate_mdd deep_loss_trades) 7
               = mdd_of deep_loss_trades).
  { rewrite calculate_mdd_get by (simpl; auto). now rewrite Hs. }
  split; [apply Exists_cons_tl, Exists_cons_hd; reflexivity|].
  split; [now rewrite Hs|].
  split; [reflexivity|].
  split; [eexists; split; [vm_compute; reflexivity|reflexivity]|].
  split.
  - rewrite Hv. eexists. split; [vm_compute; reflexivity|]. split; reflexivity.
  - rewrite calculate_metrics_ok by discriminate. cbn [fst].
    exists [(7%Z, fillna_row (raw_metrics (mkFrame deep_loss_trades None) 7))].
    exists (fillna_row (raw_metrics (mkFrame deep_loss_trades None) 7)).
    split; [reflexivity|]. split; [left; reflexivity|].
    cbn [fillna_row raw_metrics max_drawdown rows]. rewrite Hv.
    eexists. split; [vm_compute; reflexivity|]. split; reflexivity.
Qed.

(** ** The caller's trade table *)

(** C4, where the code departs from it.  On a table of four trades
    without a ['date'] column, [calculate_metrics] (through
    [calculate_sharpe_ratio]) leaves the caller's table with a ['date']
    column added: the table is not what it was. *)
Theorem calculate_metrics_adds_date_column `{SortRoutine} `{RealFns} :
  let tf := mkFrame sample_trades None in
  columns tf = base_columns /\
  columns (snd (calculate_metrics tf)) = (base_columns ++ ["date"%string])%list /\
  date_column (snd (calculate_metrics tf)) = Some [0; 0; 1; 1]%Z /\
  snd (calculate_metrics tf) <> tf.
Proof.
  intros tf.
  assert (E : snd (calculate_metrics tf) = with_date_column tf).
  { unfold tf. now rewrite calculate_metrics_ok by discriminate. }
  rewrite E. repeat split. discriminate.
Qed.

(** Whatever the table, once it has a row the ['date'] column is
    (re)written from the timestamps. *)
Lemma calculate_metrics_frame `{SortRoutine} `{RealFns} (tf : TradeFrame) :
  snd (calculate_metrics tf) =
  match rows tf with
  | [] => tf
  | _ :: _ => with_date_column tf
  end.
Proof.
  destruct (rows tf) as [|t r] eqn:Er.
  - unfold calculate_metrics. now rewrite Er.
  - rewrite calculate_metrics_ok; [reflexivity|rewrite Er; discriminate].
Qed.

(** ** Sharpe ratio *)

Lemma filter_map_comm {A B : Type} (p : B -> bool) (f : A -> B) (l : list A) :
  filter p (map f l) = map f (filter (fun x => p (f x)) l).
Proof.
  induction l as [|a r IH]; simpl; [reflexivity|].
  destruct (p (f a)); simpl; congruence.
Qed.

Section DailyReturns.

Variable dr : list (Trade * Z).

Let rows_of (k : Z) : list (Z * Z * Q) :=
  let g := filter (fun td => Z.eqb (Port_IDs (fst td)) k) dr in
  map (fun d =>
         (k, d,
          Qsum (map (fun td => realizedProfit (fst td))
                    (filter (fun td => Z.eqb (snd td) d) g))))
      (group_keys (map snd g)).

Lemma rows_of_same (k : Z) :
  filter (fun r => Z.eqb (fst (fst r)) k) (rows_of k) = rows_of k.
Proof.
  unfold rows_of. rewrite filter_map_comm. cbn [fst].
  rewrite Z.eqb_refl. f_equal.
  induction (group_keys _); simpl; congruence.
Qed.

Lemma rows_of_other (k k' : Z) :
  k' <> k -> filter (fun r => Z.eqb (fst (fst r)) k) (rows_of k') = [].
Proof.
  intros Hne. unfold rows_of. rewrite filter_map_comm. cbn [fst].
  apply Z.eqb_neq in Hne. rewrite Hne.
  induction (group_keys _); simpl; [reflexivity|assumption].
Qed.

Lemma flat_map_rows_of (keys : list Z) (k : Z) :
  NoDup keys -> In k keys ->
  filter (fun r => Z.eqb (fst (fst r)) k) (flat_map rows_of keys) = rows_of k.
Proof.
  induction 1 as [|a r Ha Hnd IH]; intros Hin; [contradiction|].
  cbn [flat_map]. rewrite filter_app.
  destruct (Z.eq_dec a k) as [->|Hne].
  - rewrite rows_of_same.
    assert (E : filter (fun r0 => Z.eqb (fst (fst r0)) k) (flat_map rows_of r) = []).
    { clear IH Hnd Hin. induction r as [|b r IHr]; [reflexivity|].
      cbn [flat_map]. rewrite filter_app, rows_of_other.
      - apply IHr. intro Hk. apply Ha. now right.
      - intros ->. apply Ha. now left. }
    rewrite E. apply app_nil_r.
  - rewrite rows_of_other by exact Hne. cbn [app].
    apply IH. destruct Hin; [contradiction|assumption].
Qed.

Lemma daily_returns_of_account (k : Z) :
  In k (map (fun td => Port_IDs (fst td)) dr) ->
  filter (fun r => Z.eqb (fst (fst r)) k) (daily_returns dr) = rows_of k.
Proof.
  intros Hk. apply flat_map_rows_of; [apply group_keys_NoDup|].
  now apply group_keys_In.
Qed.

End DailyReturns.

(** The daily returns the code reads for one account are the account's
    realized profit summed per calendar day. *)
Lemma port_returns_spec (df : list Trade) (k : Z) :
  In k (map Port_IDs df) ->
  map snd
      (filter (fun r => Z.eqb (fst (fst r)) k)
              (daily_returns (map (fun t => (t, date_of (timestamp t))) df))) =
  daily_sums (account_rows df k).
Proof.
  intros Hk. rewrite daily_returns_of_account by (now rewrite map_map).
  rewrite map_map. cbn [snd]. unfold daily_sums, distinct_dates, account_rows.
  rewrite filter_map_comm, map_map. cbn [fst snd].
  apply map_ext. intros d.
  rewrite filter_map_comm, map_map. reflexivity.
Qed.

Lemma sharpe_of_spec `{RealFns} (rf : Q) (g : list Trade) :
  feq (sharpe_of rf (daily_sums g)) (Fin (sharpe_spec rf g)).
Proof.
  unfold sharpe_of, sharpe_spec.
  assert (Hlen : length (daily_sums g) = length (distinct_dates g))
    by (unfold daily_sums; apply length_map).
  rewrite Hlen.
  destruct (Nat.ltb_spec 1 (length (distinct_dates g))) as [Hl|Hl];
    destruct (Nat.ltb_spec (length (distinct_dates g)) 2) as [Hl'|Hl'];
    try lia; [|simpl; reflexivity].
  set (excess := map (fun r => r - (np_pow (1 + rf) (1 / 365) - 1)) (daily_sums g)).
  assert (Hex : (1 < length excess)%nat)
    by (unfold excess; rewrite length_map, Hlen; exact Hl).
  rewrite (series_std_value excess Hex).
  rewrite (series_mean_finite excess) by lia.
  fold (sample_std excess).
  pose proof (np_sqrt_nonneg (sq_dev excess / (Qlen excess - 1))) as Hnn.
  fold (sample_std excess) in Hnn.
  unfold fgt, fdiv.
  destruct (Qlt_bool_spec 0 (sample_std excess)) as [Hs|Hs];
    destruct (Qeq_bool_spec (sample_std excess) 0) as [Hz|Hz]; simpl.
  - rewrite Hz in Hs. discriminate.
  - field. exact Hz.
  - reflexivity.
  - elim Hz. apply Qle_antisym; [apply Qnot_lt_le; exact Hs|exact Hnn].
Qed.

(** The Sharpe ratio in exact arithmetic.  For every account,
    [calculate_sharpe_ratio] sums the realized profit per calendar date;
    with fewer than two distinct dates the result is 0; otherwise it is
    [sqrt(365) * mean(excess) / std(excess)], the excess returns being the
    daily sums minus [(1 + annual_rf)^(1/365) - 1] and [std] the sample
    standard deviation, and 0 when that deviation is 0.
    [calculate_metrics] calls it with [annual_rf = 0.02].  (On binary64
    numbers the deviation of equal daily returns need not come out as 0;
    that case is settled on [Binary64].) *)
Theorem calculate_sharpe_ratio_correct `{RealFns} (tf : TradeFrame) (rf : Q) (k : Z) :
  In k (map Port_IDs (rows tf)) ->
  let g := account_rows (rows tf) k in
  let v := series_get (fst (calculate_sharpe_ratio tf rf)) k in
  let daily_rf := np_pow (1 + rf) (1 / 365) - 1 in
  let excess := map (fun r => r - daily_rf) (daily_sums g) in
  feq v (Fin (sharpe_spec rf g)) /\
  ((length (distinct_dates g) < 2)%nat -> v = Fin 0) /\
  ((2 <= length (distinct_dates g))%nat ->
   (sample_std excess == 0 -> v = Fin 0) /\
   (~ sample_std excess == 0 ->
    feq v (Fin (np_sqrt 365 * Qmean excess / sample_std excess)))) /\
  default_risk_free_rate == 2 / 100.
Proof.
  intros Hk g v daily_rf excess.
  assert (Hv : v = sharpe_of rf (daily_sums g)).
  { unfold v, calculate_sharpe_ratio. fold (with_date_column tf). cbn [fst].
    rewrite (series_get_map
               (fun port_id =>
                  sharpe_of rf
                    (map snd
                       (filter (fun r => Z.eqb (fst (fst r)) port_id)
                          (daily_returns (dated_rows (with_date_column tf)))))));
      [|rewrite unique_In, daily_returns_ports, dated_rows_with_date, map_map;
        exact Hk].
    rewrite dated_rows_with_date, port_returns_spec by exact Hk. reflexivity. }
  pose proof (sharpe_of_spec rf g) as Hspec. rewrite <- Hv in Hspec.
  assert (Hlen : length (daily_sums g) = length (distinct_dates g))
    by (unfold daily_sums; apply length_map).
  split; [exact Hspec|]. split; [|split; [|reflexivity]].
  - intros Hl. rewrite Hv. unfold sharpe_of. rewrite Hlen.
    destruct (Nat.ltb_spec 1 (length (distinct_dates g))); [lia|reflexivity].
  - intros Hl. unfold sharpe_spec in Hspec.
    destruct (Nat.ltb_spec (length (distinct_dates g)) 2); [lia|].
    fold daily_rf excess in Hspec. cbv zeta in Hspec. fold excess in Hspec.
    split; intros Hsd.
    + rewrite Hv. unfold sharpe_of. rewrite Hlen.
      destruct (Nat.ltb_spec 1 (length (distinct_dates g))); [|lia].
      fold daily_rf excess. cbv zeta. fold excess.
      rewrite series_std_value by (unfold excess; rewrite length_map; lia).
      fold (sample_std excess). unfold fgt.
      destruct (Qlt_bool_spec 0 (sample_std excess)) as [Hs|Hs]; [|reflexivity].
      rewrite Hsd in Hs. discriminate.
    + destruct (Qeq_bool_spec (sample_std excess) 0); [contradiction|exact Hspec].
Qed.

Lemma calculate_sharpe_ratio_correct_witness :
  In 1%Z (map Port_IDs sample_trades) /\
  feq (series_get (fst (calculate_sharpe_ratio (mkFrame sample_trades None)
                                                default_risk_free_rate)) 1)
      (Fin (sharpe_spec default_risk_free_rate (account_rows sample_trades 1))).
Proof.
  assert (Hin : In 1%Z (map Port_IDs (rows (mkFrame sample_trades None))))
    by (simpl; auto).
  split; [exact Hin|].
  exact (proj1 (calculate_sharpe_ratio_correct (mkFrame sample_trades None)
                  default_risk_free_rate 1 Hin)).
Defined.

(** ** Normalization *)

Lemma sanitize_clean (x : fval) : sanitize x = Fin (clean x).
Proof. destruct x; reflexivity. Qed.

Lemma column_sanitized_copy (f : AccountMetrics -> fval) (m : MetricsTable) :
  (forall r, f (mkMetrics (sanitize (roi r)) (sanitize (total_pnl r))
                          (sanitize (sharpe_ratio r)) (sanitize (max_drawdown r))
                          (sanitize (win_rate r)) (sanitize (win_positions r))
                          (sanitize (total_positions r)))
             = sanitize (f r)) ->
  column f (sanitized_copy m) = map Fin (clean_column f m).
Proof.
  intros Hf. unfold column, sanitized_copy, clean_column.
  rewrite !map_map. apply map_ext. intros kr. cbn [snd].
  now rewrite Hf, sanitize_clean.
Qed.

Lemma series_min_Fin (qs : list Q) :
  qs <> [] -> exists mn, series_min (map Fin qs) = Fin mn /\ population_min qs mn.
Proof.
  induction qs as [|a r IH]; [congruence|]. intros _.
  destruct r as [|b r'].
  - exists a. split; [reflexivity|]. split; [now left|].
    intros q [<-|[]]. apply Qle_refl.
  - destruct IH as [mn [E [Hin Hle]]]; [discriminate|].
    cbn [map series_min fold_right] in E |- *. unfold series_min in E.
    cbn [map fold_right] in E. rewrite E. unfold fmin2.
    destruct (Qle_bool_spec a mn) as [Ha|Ha].
    + exists a. split; [reflexivity|]. split; [now left|].
      intros q [<-|Hq]; [apply Qle_refl|]. specialize (Hle q Hq). lra.
    + exists mn. split; [reflexivity|]. split; [now right|].
      intros q [<-|Hq]; [lra|now apply Hle].
Qed.

Lemma series_max_Fin (qs : list Q) :
  qs <> [] -> exists mx, series_max (map Fin qs) = Fin mx /\ population_max qs mx.
Proof.
  induction qs as [|a r IH]; [congruence|]. intros _.
  destruct r as [|b r'].
  - exists a. split; [reflexivity|]. split; [now left|].
    intros q [<-|[]]. apply Qle_refl.
  - destruct IH as [mx [E [Hin Hle]]]; [discriminate|].
    cbn [map series_max fold_right] in E |- *. unfold series_max in E.
    cbn [map fold_right] in E. rewrite E. unfold fmax2.
    destruct (Qle_bool_spec a mx) as [Ha|Ha].
    + exists mx. split; [reflexivity|]. split; [now right|].
      intros q [<-|Hq]; [lra|now apply Hle].
    + exists a. split; [reflexivity|]. split; [now left|].
      intros q [<-|Hq]; [apply Qle_refl|]. specialize (Hle q Hq). lra.
Qed.

Lemma population_max_unique (qs : list Q) (a b : Q) :
  population_max qs a -> population_max qs b -> a == b.
Proof.
  intros [Ia Ha] [Ib Hb]. specialize (Ha _ Ib). specialize (Hb _ Ia). lra.
Qed.

Lemma population_min_unique (qs : list Q) (a b : Q) :
  population_min qs a -> population_min qs b -> a == b.
Proof.
  intros [Ia Ha] [Ib Hb]. specialize (Ha _ Ib). specialize (Hb _ Ia). lra.
Qed.

Lemma Forall2_map_same {A B : Type} (R : A -> B -> Prop) (g : A -> B) (l : list A) :
  (forall a, In a l -> R a (g a)) -> Forall2 R l (map g l).
Proof.
  induction l as [|a r IH]; intros H; simpl; constructor.
  - apply H. now left.
  - apply IH. intros b Hb. apply H. now right.
Qed.

Lemma unit_interval_div (q mn mx : Q) :
  mn <= q -> q <= mx -> ~ mx == mn ->
  0 <= (q - mn) / (mx - mn) /\ (q - mn) / (mx - mn) <= 1.
Proof.
  intros H1 H2 H3. assert (Hpos : 0 < mx - mn) by lra. split.
  - apply Qle_shift_div_l; [exact Hpos|]. lra.
  - apply Qle_shift_div_r; [exact Hpos|]. lra.
Qed.

Lemma Qlt_bool_compat (a b : Q) : a == b -> Qlt_bool 0 a = Qlt_bool 0 b.
Proof.
  intros E. destruct (Qlt_bool_spec 0 a), (Qlt_bool_spec 0 b); try reflexivity; lra.
Qed.

(** One "higher is better" column: it never raises, every scaled value
    lies in [0, 1], and the values are the min-max scaling of the
    specification. *)
Lemma normalize_column_Fin (qs : list Q) :
  exists out : list Q,
    normalize_column (map Fin qs) = Ok (map Fin out) /\
    (forall mx mn, population_max qs mx -> population_min qs mn ->
                   Forall2 (higher_is_better mx mn) qs out) /\
    Forall in_unit_interval out /\
    length out = length qs.
Proof.
  destruct qs as [|q0 r] eqn:Eqs.
  - exists []. repeat split; constructor.
  - rewrite <- Eqs. assert (Hne : qs <> []) by (rewrite Eqs; discriminate).
    destruct (series_max_Fin qs Hne) as [mx0 [Emx Hmx]].
    destruct (series_min_Fin qs Hne) as [mn0 [Emn Hmn]].
    unfold normalize_column. rewrite Emx, Emn. unfold fne.
    destruct (Qeq_bool_spec mx0 mn0) as [Heq|Hneq]; cbn [negb].
    + assert (Hi : iloc0 (map Fin qs) = Ok (Fin q0)) by (rewrite Eqs; reflexivity).
      rewrite Hi. cbn [bind fgt].
      exists (map (fun _ => if Qlt_bool 0 q0 then 1 else 0) qs).
      split; [|split; [|split]].
      * f_equal. rewrite !map_map. apply map_ext. intros _.
        now destruct (Qlt_bool 0 q0).
      * intros mx mn Pmx Pmn. apply Forall2_map_same. intros q Hq.
        pose proof (population_max_unique _ _ _ Hmx Pmx) as E1.
        pose proof (population_min_unique _ _ _ Hmn Pmn) as E2.
        split; [intros Hd; elim Hd; lra|]. intros _.
        assert (Hq0 : In q0 qs) by (rewrite Eqs; now left).
        assert (q == q0).
        { destruct Hmx as [_ Hmx], Hmn as [_ Hmn].
          pose proof (Hmx _ Hq). pose proof (Hmn _ Hq).
          pose proof (Hmx _ Hq0). pose proof (Hmn _ Hq0). lra. }
        rewrite (Qlt_bool_compat q q0) by assumption. reflexivity.
      * apply Forall_forall. intros n Hn. unfold in_unit_interval.
        apply in_map_iff in Hn.
        destruct Hn as [_ [<- _]]. destruct (Qlt_bool 0 q0); lra.
      * apply length_map.
    + exists (map (fun q => (q - mn0) / (mx0 - mn0)) qs).
      split; [|split; [|split]].
      * f_equal. rewrite !map_map. apply map_ext. intros q.
        unfold fsub, fneg, fadd, fdiv.
        destruct (Qeq_bool_spec (mx0 + - mn0) 0) as [Hz|Hz]; [elim Hneq; lra|].
        reflexivity.
      * intros mx mn Pmx Pmn. apply Forall2_map_same. intros q Hq.
        pose proof (population_max_unique _ _ _ Hmx Pmx) as E1.
        pose proof (population_min_unique _ _ _ Hmn Pmn) as E2.
        split; [intros Hd|intros Hd; elim Hneq; lra].
        split; [|split].
        -- rewrite E1, E2. reflexivity.
        -- intros Hq'. rewrite E1, E2, Hq'. field. lra.
        -- intros Hq'. rewrite E1, E2, Hq'. field. lra.
      * apply Forall_forall. intros n Hn. unfold in_unit_interval.
        apply in_map_iff in Hn.
        destruct Hn as [q [<- Hq]]. destruct Hmx as [_ Hmx], Hmn as [_ Hmn].
        apply unit_interval_div; auto.
      * apply length_map.
Qed.

(** The [max_drawdown] column. *)
Lemma normalize_mdd_Fin (qs : list Q) :
  exists out : list Q,
    normalize_mdd (map Fin qs) = map Fin out /\
    (forall mx mn, population_max qs mx -> population_min qs mn ->
                   Forall2 (lower_is_better mx mn) qs out) /\
    Forall in_unit_interval out /\
    length out = length qs.
Proof.
  destruct qs as [|q0 r] eqn:Eqs.
  - exists []. repeat split; constructor.
  - rewrite <- Eqs. assert (Hne : qs <> []) by (rewrite Eqs; discriminate).
    destruct (series_max_Fin qs Hne) as [mx0 [Emx Hmx]].
    destruct (series_min_Fin qs Hne) as [mn0 [Emn Hmn]].
    unfold normalize_mdd. rewrite Emx, Emn. unfold fne.
    destruct (Qeq_bool_spec mx0 mn0) as [Heq|Hneq]; cbn [negb].
    + exists (map (fun _ => 1) qs).
      split; [|split; [|split]].
      * rewrite !map_map. reflexivity.
      * intros mx mn Pmx Pmn. apply Forall2_map_same. intros q Hq.
        pose proof (population_max_unique _ _ _ Hmx Pmx) as E1.
        pose proof (population_min_unique _ _ _ Hmn Pmn) as E2.
        split; [intros Hd; elim Hd; lra|]. intros _. reflexivity.
      * apply Forall_forall. intros n Hn. unfold in_unit_interval.
        apply in_map_iff in Hn.
        destruct Hn as [_ [<- _]]. lra.
      * apply length_map.
    + exists (map (fun q => 1 - (q - mn0) / (mx0 - mn0)) qs).
      split; [|split; [|split]].
      * rewrite !map_map. apply map_ext. intros q.
        unfold fsub, fneg, fadd, fdiv.
        destruct (Qeq_bool_spec (mx0 + - mn0) 0) as [Hz|Hz]; [elim Hneq; lra|].
        reflexivity.
      * intros mx mn Pmx Pmn. apply Forall2_map_same. intros q Hq.
        pose proof (population_max_unique _ _ _ Hmx Pmx) as E1.
        pose proof (population_min_unique _ _ _ Hmn Pmn) as E2.
        split; [intros Hd|intros Hd; elim Hneq; lra].
        split; [|split].
        -- rewrite E1, E2. reflexivity.
        -- intros Hq'. rewrite E1, E2, Hq'. field. lra.
        -- intros Hq'. rewrite E1, E2, Hq'. field. lra.
      * apply Forall_forall. intros n Hn. unfold in_unit_interval.
        apply in_map_iff in Hn.
        destruct Hn as [q [<- Hq]]. destruct Hmx as [_ Hmx], Hmn as [_ Hmn].
        pose proof (unit_interval_div q mn0 mx0 (Hmn _ Hq) (Hmx _ Hq) Hneq). lra.
      * apply length_map.
Qed.


(** [normalize_metrics] never raises; its five columns are the scalings of
    the specification and stay within [0, 1]. *)
Lemma normalize_metrics_ok (m : MetricsTable) :
  exists o_roi o_pnl o_sharpe o_win o_mdd : list Q,
    normalize_metrics m =
    Ok (mkNormalized (map fst m) (map Fin o_roi) (map Fin o_pnl)
                     (map Fin o_sharpe) (map Fin o_win) (map Fin o_mdd)) /\
    (scaled_as higher_is_better (clean_column roi m) o_roi /\
     scaled_as higher_is_better (clean_column total_pnl m) o_pnl /\
     scaled_as higher_is_better (clean_column sharpe_ratio m) o_sharpe /\
     scaled_as higher_is_better (clean_column win_rate m) o_win /\
     scaled_as lower_is_better (clean_column max_drawdown m) o_mdd) /\
    (Forall in_unit_interval o_roi /\ Forall in_unit_interval o_pnl /\
     Forall in_unit_interval o_sharpe /\ Forall in_unit_interval o_win /\
     Forall in_unit_interval o_mdd) /\
    (length o_roi = length m /\ length o_pnl = length m /\
     length o_sharpe = length m /\ length o_win = length m /\
     length o_mdd = length m).
Proof.
  destruct (normalize_column_Fin (clean_column roi m)) as [o1 [E1 [S1 [U1 L1]]]].
  destruct (normalize_column_Fin (clean_column total_pnl m)) as [o2 [E2 [S2 [U2 L2]]]].
  destruct (normalize_column_Fin (clean_column sharpe_ratio m)) as [o3 [E3 [S3 [U3 L3]]]].
  destruct (normalize_column_Fin (clean_column win_rate m)) as [o4 [E4 [S4 [U4 L4]]]].
  destruct (normalize_mdd_Fin (clean_column max_drawdown m)) as [o5 [E5 [S5 [U5 L5]]]].
  exists o1, o2, o3, o4, o5.
  unfold clean_column in L1, L2, L3, L4, L5. rewrite length_map in L1, L2, L3, L4, L5.
  split; [|repeat split; assumption].
  unfold normalize_metrics.
  rewrite !column_sanitized_copy by reflexivity.
  rewrite E1, E2, E3, E4, E5. cbn [bind]. do 2 f_equal.
  unfold sanitized_copy. rewrite map_map. reflexivity.
Qed.


(** ** Composite score *)

Lemma nth_error_map2 {A B C : Type} (f : A -> B -> C) (l : list A) (l' : list B)
  (i : nat) :
  nth_error (map2 f l l') i =
  match nth_error l i, nth_error l' i with
  | Some a, Some b => Some (f a b)
  | _, _ => None
  end.
Proof.
  revert l' i. induction l as [|a r IH]; intros l' i.
  - destruct i; reflexivity.
  - destruct l' as [|b r'].
    + destruct i as [|i]; simpl; [reflexivity|]. now destruct (nth_error r i).
    + destruct i as [|i]; simpl; [reflexivity|apply IH].
Qed.

Lemma map2_length {A B C : Type} (f : A -> B -> C) (l : list A) (l' : list B) :
  length l = length l' -> length (map2 f l l') = length l.
Proof.
  revert l'. induction l as [|a r IH]; intros [|b r'] E; simpl in *;
    try congruence. f_equal. apply IH. congruence.
Qed.

Lemma nth_error_Fin (o : list Q) (i : nat) (n : nat) :
  length o = n -> (i < n)%nat ->
  exists q, nth_error o i = Some q /\ nth_error (map Fin o) i = Some (Fin q).
Proof.
  intros L Hi. destruct (nth_error o i) as [q|] eqn:E.
  - exists q. split; [reflexivity|]. rewrite nth_error_map, E. reflexivity.
  - apply nth_error_None in E. lia.
Qed.

Lemma weighted_scores_nth (idx : list Z) (o1 o2 o3 o4 o5 : list Q) (n i : nat) :
  length o1 = n -> length o2 = n -> length o3 = n -> length o4 = n ->
  length o5 = n -> (i < n)%nat ->
  exists n1 n2 n3 n4 n5,
    nth_error o1 i = Some n1 /\ nth_error o2 i = Some n2 /\
    nth_error o3 i = Some n3 /\ nth_error o4 i = Some n4 /\
    nth_error o5 i = Some n5 /\
    nth_error
      (weighted_scores_of
         (mkNormalized idx (map Fin o1) (map Fin o2) (map Fin o3)
                       (map Fin o4) (map Fin o5)) n) i
    = Some (Fin (score_sum n1 n2 n3 n5 n4)).
Proof.
  intros L1 L2 L3 L4 L5 Hi.
  destruct (nth_error_Fin o1 i n L1 Hi) as [n1 [E1 F1]].
  destruct (nth_error_Fin o2 i n L2 Hi) as [n2 [E2 F2]].
  destruct (nth_error_Fin o3 i n L3 Hi) as [n3 [E3 F3]].
  destruct (nth_error_Fin o4 i n L4 Hi) as [n4 [E4 F4]].
  destruct (nth_error_Fin o5 i n L5 Hi) as [n5 [E5 F5]].
  exists n1, n2, n3, n4, n5. repeat (split; [assumption|]).
  unfold weighted_scores_of, get_feature_importance.
  cbn [fold_left nd_column fst snd nd_roi nd_total_pnl nd_sharpe_ratio
       nd_max_drawdown nd_win_rate].
  rewrite !nth_error_map2, !nth_error_map, E1, E2, E3, E4, E5.
  rewrite nth_error_repeat by exact Hi.
  reflexivity.
Qed.

Lemma score_sum_unit (n1 n2 n3 n4 n5 : Q) :
  in_unit_interval n1 -> in_unit_interval n2 -> in_unit_interval n3 ->
  in_unit_interval n4 -> in_unit_interval n5 ->
  in_unit_interval (score_sum n1 n2 n3 n4 n5).
Proof. unfold in_unit_interval, score_sum. intros. lra. Qed.

Lemma Forall_nth_error {A : Type} (P : A -> Prop) (l : list A) (i : nat) (a : A) :
  Forall P l -> nth_error l i = Some a -> P a.
Proof.
  intros H E. rewrite Forall_forall in H. apply H. eapply nth_error_In; eauto.
Qed.

Lemma map2_length_min {A B C : Type} (f : A -> B -> C) (l : list A) (l' : list B) :
  length (map2 f l l') = Nat.min (length l) (length l').
Proof.
  revert l'. induction l as [|a r IH]; intros [|b r']; simpl; auto.
Qed.

Lemma weighted_scores_length (nd : NormalizedData) (n : nat) :
  length (nd_roi nd) = n -> length (nd_total_pnl nd) = n ->
  length (nd_sharpe_ratio nd) = n -> length (nd_win_rate nd) = n ->
  length (nd_max_drawdown nd) = n ->
  length (weighted_scores_of nd n) = n.
Proof.
  intros L1 L2 L3 L4 L5. unfold weighted_scores_of, get_feature_importance.
  cbn [fold_left nd_column fst snd].
  rewrite !map2_length_min, !length_map, repeat_length, L1, L2, L3, L4, L5.
  lia.
Qed.

Lemma rankings_frame_ok (m : MetricsTable) (o1 o2 o3 o4 o5 : list Q) :
  normalize_metrics m =
  Ok (mkNormalized (map fst m) (map Fin o1) (map Fin o2) (map Fin o3)
                   (map Fin o4) (map Fin o5)) ->
  length o1 = length m -> length o2 = length m -> length o3 = length m ->
  length o4 = length m -> length o5 = length m ->
  exists rk, rankings_frame m = Ok rk /\ length rk = length m /\
             forall i row, nth_error rk i = Some row ->
                           row_scored m o1 o2 o3 o4 o5 i row.
Proof.
  intros E L1 L2 L3 L4 L5. unfold rankings_frame. rewrite E. cbn [bind].
  eexists. split; [reflexivity|]. split.
  - rewrite map2_length_min, weighted_scores_length;
      cbn [nd_roi nd_total_pnl nd_sharpe_ratio nd_win_rate nd_max_drawdown];
      rewrite ?length_map; auto. lia.
  - intros i row Hrow. rewrite nth_error_map2 in Hrow.
    destruct (nth_error m i) as [kr|] eqn:Ekr; [|discriminate].
    assert (Hi : (i < length m)%nat) by (apply nth_error_Some; congruence).
    destruct (weighted_scores_nth (map fst m) o1 o2 o3 o4 o5 (length m) i
                L1 L2 L3 L4 L5 Hi)
      as [n1 [n2 [n3 [n4 [n5 [E1 [E2 [E3 [E4 [E5 Ews]]]]]]]]]].
    rewrite Ews in Hrow. inversion Hrow; subst row.
    exists kr, n1, n2, n3, n4, n5. cbn [r_Port_IDs Score]. auto 10.
Qed.

Lemma row_scored_unit (m : MetricsTable) (o1 o2 o3 o4 o5 : list Q) (i : nat)
  (row : RankingRow) :
  Forall in_unit_interval o1 -> Forall in_unit_interval o2 ->
  Forall in_unit_interval o3 -> Forall in_unit_interval o4 ->
  Forall in_unit_interval o5 ->
  row_scored m o1 o2 o3 o4 o5 i row ->
  exists s, Score row = Fin s /\ in_unit_interval s.
Proof.
  intros U1 U2 U3 U4 U5 [kr [n1 [n2 [n3 [n4 [n5 [_ [_ [E1 [E2 [E3 [E4 [E5 Es]]]]]]]]]]]]].
  eexists. split; [exact Es|].
  apply score_sum_unit.
  - exact (Forall_nth_error _ _ _ _ U1 E1).
  - exact (Forall_nth_error _ _ _ _ U2 E2).
  - exact (Forall_nth_error _ _ _ _ U3 E3).
  - exact (Forall_nth_error _ _ _ _ U5 E5).
  - exact (Forall_nth_error _ _ _ _ U4 E4).
Qed.

(** ** Selection and ranks *)





Lemma In_firstn {A : Type} (n : nat) (l : list A) (x : A) :
  In x (firstn n l) -> In x l.
Proof.
  revert l. induction n as [|n IH]; intros [|a r]; simpl; try tauto.
  intros [->|Hx]; [now left|right; now apply IH].
Qed.

Lemma In_head {A : Type} (n : Z) (l : list A) (x : A) : In x (head n l) -> In x l.
Proof. unfold head. destruct (Z.leb 0 n); apply In_firstn. Qed.

Lemma range1_length (n : nat) : length (range1 n) = n.
Proof. unfold range1. now rewrite length_map, length_seq. Qed.

Lemma map2_entries (ranks : list Z) (sel : list RankingRow) :
  length ranks = length sel ->
  map entry (map2 mkEntry ranks sel) = sel /\
  map Rank (map2 mkEntry ranks sel) = ranks.
Proof.
  revert sel. induction ranks as [|a r IH]; intros [|b r'] E; simpl in *;
    try discriminate; [split; reflexivity|].
  destruct (IH r') as [E1 E2]; [congruence|]. now rewrite E1, E2.
Qed.

(** Once the [rankings] frame is built, [rank_accounts] returns: the rows
    are the head of the sorted frame and the ranks count them from 1. *)
Lemma rank_accounts_ok `{SortRoutine} (m : MetricsTable) (top_n : Z)
  (rk : list RankingRow) :
  rankings_frame m = Ok rk ->
  exists out,
    rank_accounts m top_n = Ok out /\
    map entry out = head top_n (sort_values RankingRow score_before rk) /\
    map Rank out =
    range1 (length (head top_n (sort_values RankingRow score_before rk))).
Proof.
  intros E. unfold rank_accounts. rewrite E. cbn [bind].
  eexists. split; [reflexivity|]. apply map2_entries. apply range1_length.
Qed.

Lemma sort_values_length `{SortRoutine} (A : Type) (leb : A -> A -> bool)
  (l : list A) : length (sort_values A leb l) = length l.
Proof. apply Permutation_length, sort_values_perm. Qed.

Lemma rankings_frame_total (m : MetricsTable) :
  exists o1 o2 o3 o4 o5 rk,
    normalize_metrics m =
    Ok (mkNormalized (map fst m) (map Fin o1) (map Fin o2) (map Fin o3)
                     (map Fin o4) (map Fin o5)) /\
    rankings_frame m = Ok rk /\ length rk = length m /\
    (forall i row, nth_error rk i = Some row -> row_scored m o1 o2 o3 o4 o5 i row) /\
    Forall (fun row => exists s, Score row = Fin s /\ in_unit_interval s) rk.
Proof.
  destruct (normalize_metrics_ok m)
    as [o1 [o2 [o3 [o4 [o5 [E [_ [[U1 [U2 [U3 [U4 U5]]]] [L1 [L2 [L3 [L4 L5]]]]]]]]]]]].
  destruct (rankings_frame_ok m o1 o2 o3 o4 o5 E L1 L2 L3 L4 L5)
    as [rk [Erk [Lrk Hrows]]].
  exists o1, o2, o3, o4, o5, rk. repeat (split; [assumption|]).
  apply Forall_forall. intros row Hin.
  apply In_nth_error in Hin. destruct Hin as [i Hi].
  exact (row_scored_unit m o1 o2 o3 o4 o5 i row U1 U2 U3 U4 U5 (Hrows i row Hi)).
Qed.


Lemma Forall2_map2 {A B C : Type} (f : A -> B -> C) (l : list A) (l' : list B) :
  length l = length l' ->
  Forall2 (fun a c => exists b, c = f a b) l (map2 f l l').
Proof.
  revert l'. induction l as [|a r IH]; intros [|b r'] E; try discriminate;
    cbn [map2]; constructor; [now exists b|].
  apply IH. simpl in E. congruence.
Qed.

Lemma rankings_frame_rows (m : MetricsTable) (rk : list RankingRow) :
  rankings_frame m = Ok rk -> Forall2 carried_from m rk.
Proof.
  destruct (normalize_metrics_ok m)
    as [o1 [o2 [o3 [o4 [o5 [E [_ [_ [L1 [L2 [L3 [L4 L5]]]]]]]]]]]].
  unfold rankings_frame. rewrite E. cbn [bind]. intros Erk.
  inversion Erk as [Hrk]. clear Erk Hrk.
  match goal with |- Forall2 _ _ (map2 ?f m ?ws) =>
    assert (Hlen : length m = length ws);
    [|pose proof (Forall2_map2 f m ws Hlen) as HF]
  end.
  { symmetry. apply weighted_scores_length;
      cbn [nd_roi nd_total_pnl nd_sharpe_ratio nd_win_rate nd_max_drawdown];
      rewrite length_map; assumption. }
  eapply Forall2_impl; [|exact HF].
  intros kr row [s ->]. repeat split.
Qed.

Lemma Forall2_ids (m : MetricsTable) (rk : list RankingRow) :
  Forall2 carried_from m rk -> map r_Port_IDs rk = map fst m.
Proof.
  induction 1 as [|kr row m' rk' [Hid _] _ IH]; [reflexivity|].
  cbn [map]. now rewrite Hid, IH.
Qed.



Lemma filter_none_in {A : Type} (f : A -> bool) (l : list A) :
  (forall a, In a l -> f a = false) -> filter f l = [].
Proof.
  intros Hf. induction l as [|x r IH]; [reflexivity|].
  cbn [filter]. rewrite Hf by (now left). apply IH.
  intros a Ha. apply Hf. now right.
Qed.





(** C3, as the code has it.  For [top_n <= 0], [rank_accounts] does not
    fail: it returns an empty ranking for [top_n = 0], and for [top_n < 0]
    the sorted table without its last [-top_n] rows, ranked from 1. *)
Theorem rank_accounts_nonpositive_top_n `{SortRoutine} (m : MetricsTable)
  (top_n : Z) :
  (top_n <= 0)%Z ->
  exists (rk : list RankingRow) (out : list RankedEntry),
    rankings_frame m = Ok rk /\
    rank_accounts m top_n = Ok out /\
    (top_n = 0%Z -> out = []) /\
    ((top_n < 0)%Z ->
     map entry out =
     firstn (length m - Z.to_nat (- top_n))
            (sort_values RankingRow score_before rk) /\
     length out = (length m - Z.to_nat (- top_n))%nat) /\
    map Rank out = range1 (length out).
Proof.
  intros Hn.
  destruct (rankings_frame_total m)
    as [o1 [o2 [o3 [o4 [o5 [rk [_ [Erk [Lrk _]]]]]]]]].
  destruct (rank_accounts_ok m top_n rk Erk) as [out [Eout [Hentry Hrank]]].
  assert (Hlen : length out
                 = length (head top_n (sort_values RankingRow score_before rk))).
  { rewrite <- Hentry. now rewrite length_map. }
  exists rk, out. split; [exact Erk|]. split; [exact Eout|].
  split; [|split].
  - intros ->. unfold head in Hlen. cbn in Hlen.
    destruct out; [reflexivity|discriminate].
  - intros Hneg. unfold head in Hentry, Hlen.
    destruct (Z.leb_spec 0 top_n); [lia|].
    rewrite sort_values_length, Lrk in Hentry, Hlen.
    split; [exact Hentry|].
    rewrite Hlen, length_firstn, sort_values_length, Lrk. lia.
  - now rewrite Hrank, Hlen.
Qed.

Lemma rank_accounts_nonpositive_top_n_witness :
  (-1 <= 0)%Z /\
  exists out : list RankedEntry,
    rank_accounts tied_metrics (-1) = Ok out /\ length out = 2%nat.
Proof.
  assert (Hn : (-1 <= 0)%Z) by lia.
  split; [exact Hn|].
  destruct (rank_accounts_nonpositive_top_n tied_metrics (-1) Hn)
    as [rk [out [_ [Eout [_ [Hneg _]]]]]].
  exists out. split; [exact Eout|].
  destruct Hneg as [_ Hlen]; [lia|exact Hlen].
Defined.

(** C3, as stated, fails: with [top_n = 0] and with [top_n = -1] the call
    returns a ranking instead of raising. *)
Lemma rank_accounts_accepts_nonpositive_top_n :
  @rank_accounts stable_sorter tied_metrics 0 = Ok [] /\
  exists e1 e2, @rank_accounts stable_sorter tied_metrics (-1) = Ok [e1; e2].
Proof.
  split; [vm_compute; reflexivity|].
  do 2 eexists. vm_compute. reflexivity.
Qed.

(** ** Worked examples *)

Example calculate_roi_sample :
  series_index (calculate_roi sample_trades) = [1; 2]%Z /\
  feq (series_get (calculate_roi sample_trades) 1) (Fin 5) /\
  feq (series_get (calculate_roi sample_trades) 2) (Fin 10).
Proof. repeat split. Qed.

Example calculate_win_rate_sample :
  feq (series_get (wm_win_rate (calculate_win_rate sample_trades)) 2) (Fin 50).
Proof. reflexivity. Qed.

Example calculate_mdd_sample :
  feq (series_get (calculate_mdd sample_trades) 2) (Fin 10) /\
  feq (series_get (calculate_mdd sample_trades) 1) (Fin 0).
Proof. split; reflexivity. Qed.

Example calculate_metrics_empty :
  calculate_metrics (mkFrame [] None) =
  (Raise (ValueError "No trade data available for analysis"), mkFrame [] None).
Proof. reflexivity. Qed.

Example rank_accounts_tied_stable :
  ranked_ids (rank_accounts tied_metrics default_top_n) = [101; 103; 102]%Z /\
  Forall2 feq (ranked_scores (rank_accounts tied_metrics default_top_n))
          [Fin 1; Fin 1; Fin (8 # 10)].
Proof. split; [reflexivity|]. repeat constructor. Qed.

Example rank_accounts_top_1 :
  ranked_ids (rank_accounts tied_metrics 1) = [101]%Z.
Proof. reflexivity. Qed.

(** * Further properties of the metrics engine *)

(** ** Win rate *)

(** X1.  For every account of the trade table, [calculate_win_rate] counts at
    least one position, no more wins than positions, and a win rate of
    [100 * wins / positions] between 0 and 100; the rate is 0 exactly when
    no trade wins and 100 exactly when all do. *)
Theorem calculate_win_rate_bounds (df : list Trade) (k : Z) :
  In k (map Port_IDs df) ->
  let w := calculate_win_rate df in
  let wins := count_wins (account_rows df k) in
  let total := Z.of_nat (length (account_rows df k)) in
  series_get (wm_realizedProfit w) k = Fin (inject_Z wins) /\
  series_get (wm_total_positions w) k = Fin (inject_Z total) /\
  (0 <= wins <= total)%Z /\ (1 <= total)%Z /\
  exists rate : Q,
    series_get (wm_win_rate w) k = Fin rate /\
    rate == 100 * inject_Z wins / inject_Z total /\
    0 <= rate /\ rate <= 100 /\
    (rate == 0 <-> wins = 0%Z) /\ (rate == 100 <-> wins = total).
Proof.
  intros Hk w wins total.
  assert (Hkeys : In k (group_keys (map Port_IDs df))) by now apply group_keys_In.
  assert (Hwins : (0 <= wins <= total)%Z).
  { unfold wins, total, count_wins. split; [lia|].
    apply Nat2Z.inj_le, filter_length_le. }
  assert (Htotal : (1 <= total)%Z).
  { unfold total. pose proof (account_rows_nonempty df k Hk).
    destruct (account_rows df k); [congruence|simpl; lia]. }
  unfold w, calculate_win_rate. cbn [wm_realizedProfit wm_total_positions wm_win_rate].
  rewrite (series_get_map (fun k => Fin (inject_Z (count_wins (account_rows df k)))))
    by exact Hkeys.
  rewrite (series_get_map
             (fun k => Fin (inject_Z (Z.of_nat (length (account_rows df k))))))
    by exact Hkeys.
  rewrite (series_get_map
             (fun k => win_rate_of (count_wins (account_rows df k))
                                   (Z.of_nat (length (account_rows df k)))))
    by exact Hkeys.
  fold wins total.
  repeat (split; [reflexivity || assumption|]).
  assert (Hq : 0 < inject_Z total)
    by (change 0 with (inject_Z 0); rewrite <- Zlt_Qlt; lia).
  assert (Hw0 : 0 <= inject_Z wins)
    by (change 0 with (inject_Z 0); rewrite <- Zle_Qle; lia).
  assert (Hwt : inject_Z wins <= inject_Z total) by (rewrite <- Zle_Qle; lia).
  unfold win_rate_of, np_where, fdiv.
  destruct (Z.ltb_spec 0 total); [|lia].
  destruct (Qeq_bool_spec (inject_Z total) 0) as [Hz|Hz]; [lra|].
  cbn [fmul]. eexists. split; [reflexivity|].
  assert (Hdiv0 : 0 <= inject_Z wins / inject_Z total)
    by (apply Qle_shift_div_l; [exact Hq|lra]).
  assert (Hdiv1 : inject_Z wins / inject_Z total <= 1)
    by (apply Qle_shift_div_r; [exact Hq|lra]).
  split; [field; exact Hz|]. split; [lra|]. split; [lra|]. split.
  - split.
    + intros E. assert (E' : inject_Z wins / inject_Z total == 0) by lra.
      assert (E2 : inject_Z wins == 0).
      { setoid_replace (inject_Z wins)
          with (inject_Z wins / inject_Z total * inject_Z total)
          by (field; exact Hz).
        rewrite E'. ring. }
      unfold Qeq in E2. simpl in E2. lia.
    + intros ->. unfold Qdiv. change (inject_Z 0) with 0. ring.
  - split.
    + intros E. assert (E' : inject_Z wins / inject_Z total == 1) by lra.
      assert (E2 : inject_Z wins == inject_Z total).
      { setoid_replace (inject_Z wins)
          with (inject_Z wins / inject_Z total * inject_Z total)
          by (field; exact Hz).
        rewrite E'. ring. }
      unfold Qeq in E2. simpl in E2. lia.
    + intros ->. field. exact Hz.
Qed.

Lemma calculate_win_rate_bounds_witness :
  In 2%Z (map Port_IDs sample_trades) /\
  exists rate : Q,
    series_get (wm_win_rate (calculate_win_rate sample_trades)) 2 = Fin rate /\
    0 <= rate /\ rate <= 100.
Proof.
  assert (Hin : In 2%Z (map Port_IDs sample_trades)) by (simpl; auto).
  split; [exact Hin|].
  destruct (calculate_win_rate_bounds sample_trades 2 Hin)
    as [_ [_ [_ [_ [rate [E [_ [H0 [H1 _]]]]]]]]].
  exists rate. auto.
Defined.

(** ** Sums over accounts and row order *)







Lemma group_keys_perm (l l' : list Z) :
  Permutation l l' -> group_keys l = group_keys l'.
Proof.
  intros P. apply sorted_lt_unique; try apply group_keys_sorted.
  intros x. rewrite !group_keys_In. split; apply Permutation_in;
    [exact P|now symmetry].
Qed.




(** ** Maximum drawdown without large losses *)

(** [Series.min()] of a column of numbers is one of them. *)
Lemma series_min_pick (P : Q -> Prop) (l : list fval) :
  Forall (fun d => exists q, d = Fin q /\ P q) l -> l <> [] ->
  exists q, series_min l = Fin q /\ P q.
Proof.
  induction 1 as [|d r [a [-> Ha]] Hr IH]; intros Hne; [congruence|].
  cbn [series_min fold_right]. fold (series_min r).
  destruct r as [|d' r'].
  - exists a. split; [reflexivity|exact Ha].
  - destruct IH as [q [E Hq]]; [discriminate|]. rewrite E. cbn [fmin2].
    destruct (Qle_bool a q); [exists a|exists q]; auto.
Qed.

Lemma mdd_of_cons (t : Trade) (r : list Trade) :
  let cum := cumprod (map (fun t => 1 + realizedProfit t) (t :: r)) in
  mdd_of (t :: r) =
  fmul (fabs (series_min (drawdowns_of cum (expanding_max cum)))) (Fin 100).
Proof. reflexivity. Qed.

Lemma drawdown_in_range (c m : Q) :
  0 < c -> c <= m ->
  exists q, fsub (fdiv (Fin c) (Fin m)) (Fin 1) = Fin q /\ -1 < q /\ q <= 0.
Proof.
  intros Hc Hm. unfold fdiv.
  destruct (Qeq_bool_spec m 0) as [Hz|Hz]; [lra|].
  eexists. split; [reflexivity|].
  assert (Hpos : 0 < m) by lra.
  assert (H0 : 0 < c / m) by (apply Qlt_shift_div_l; [exact Hpos|lra]).
  assert (H1 : c / m <= 1) by (apply Qle_shift_div_r; [exact Hpos|lra]).
  lra.
Qed.

Lemma Qmax2_bounds (a b : Q) : a <= Qmax2 a b /\ b <= Qmax2 a b.
Proof. unfold Qmax2. destruct (Qle_bool_spec a b); lra. Qed.

Lemma drawdowns_from_in_range (l : list Q) (c m : Q) :
  0 < c -> c <= m -> Forall (fun x => 0 < x) l ->
  Forall (fun d => exists q, d = Fin q /\ -1 < q /\ q <= 0)
    (drawdowns_of (scan_from Qmult c l)
                  (scan_from Qmax2 m (scan_from Qmult c l))).
Proof.
  revert c m. induction l as [|x r IH]; intros c m Hc Hm Hl; [constructor|].
  inversion Hl as [|? ? Hx Hr]; subst.
  assert (Hc' : 0 < c * x) by nra.
  destruct (Qmax2_bounds m (c * x)) as [_ Hm'].
  cbn [scan_from]. unfold drawdowns_of. cbn [combine map fst snd].
  constructor; [now apply drawdown_in_range|now apply IH].
Qed.

Lemma drawdowns_from_zero (l : list Q) (c m : Q) :
  0 < c -> m == c -> Forall (fun x => 1 <= x) l ->
  Forall (fun d => exists q, d = Fin q /\ q == 0)
    (drawdowns_of (scan_from Qmult c l)
                  (scan_from Qmax2 m (scan_from Qmult c l))).
Proof.
  revert c m. induction l as [|x r IH]; intros c m Hc Hm Hl; [constructor|].
  inversion Hl as [|? ? Hx Hr]; subst.
  assert (Hc' : 0 < c * x) by nra.
  assert (Hm' : Qmax2 m (c * x) == c * x).
  { unfold Qmax2. destruct (Qle_bool_spec m (c * x)) as [Hle|Hle]; [reflexivity|].
    rewrite Hm in Hle. nra. }
  cbn [scan_from]. unfold drawdowns_of. cbn [combine map fst snd].
  constructor; [|now apply IH].
  unfold fdiv. destruct (Qeq_bool_spec (Qmax2 m (c * x)) 0) as [Hz|Hz]; [lra|].
  eexists. split; [reflexivity|]. rewrite Hm'. field. lra.
Qed.

Lemma mdd_of_below_100 (ts : list Trade) :
  ts <> [] -> Forall (fun t => -1 < realizedProfit t) ts ->
  exists q, mdd_of ts = Fin q /\ 0 <= q /\ q < 100.
Proof.
  intros Hne Hall. destruct ts as [|t r]; [congruence|].
  rewrite mdd_of_cons. inversion Hall as [|? ? Ht Hr]; subst.
  cbn [map]. unfold cumprod, expanding_max. cbn [scan].
  unfold drawdowns_of. cbn [combine map fst snd]. fold (drawdowns_of
    (scan_from Qmult (1 + realizedProfit t) (map (fun t => 1 + realizedProfit t) r))
    (scan_from Qmax2 (1 + realizedProfit t)
       (scan_from Qmult (1 + realizedProfit t)
          (map (fun t => 1 + realizedProfit t) r)))).
  match goal with |- context [series_min ?l] =>
    destruct (series_min_pick (fun q => -1 < q /\ q <= 0) l) as [q [E [Hq1 Hq2]]]
  end.
  - constructor.
    + apply drawdown_in_range; lra.
    + apply drawdowns_from_in_range; [lra|lra|].
      apply Forall_map. eapply Forall_impl; [|exact Hr].
      intros a Ha. cbv beta in *. lra.
  - discriminate.
  - rewrite E. cbn [fabs fmul]. eexists. split; [reflexivity|].
    rewrite (Qabs_neg q Hq2). lra.
Qed.

Lemma mdd_of_no_losses (ts : list Trade) :
  ts <> [] -> Forall (fun t => 0 <= realizedProfit t) ts ->
  exists q, mdd_of ts = Fin q /\ q == 0.
Proof.
  intros Hne Hall. destruct ts as [|t r]; [congruence|].
  rewrite mdd_of_cons. inversion Hall as [|? ? Ht Hr]; subst.
  cbn [map]. unfold cumprod, expanding_max. cbn [scan].
  unfold drawdowns_of. cbn [combine map fst snd]. fold (drawdowns_of
    (scan_from Qmult (1 + realizedProfit t) (map (fun t => 1 + realizedProfit t) r))
    (scan_from Qmax2 (1 + realizedProfit t)
       (scan_from Qmult (1 + realizedProfit t)
          (map (fun t => 1 + realizedProfit t) r)))).
  match goal with |- context [series_min ?l] =>
    destruct (series_min_pick (fun q => q == 0) l) as [q [E Hq]]
  end.
  - constructor.
    + unfold fdiv. destruct (Qeq_bool_spec (1 + realizedProfit t) 0); [lra|].
      eexists. split; [reflexivity|]. field. lra.
    + apply drawdowns_from_zero; [lra|reflexivity|].
      apply Forall_map. eapply Forall_impl; [|exact Hr].
      intros a Ha. cbv beta in *. lra.
  - discriminate.
  - rewrite E. cbn [fabs fmul]. eexists. split; [reflexivity|].
    rewrite Hq. reflexivity.
Qed.

Lemma sorted_account_rows_Forall `{SortRoutine} (P : Trade -> Prop)
  (df : list Trade) (k : Z) :
  (forall t, In t df -> Port_IDs t = k -> P t) ->
  Forall P (sort_values Trade by_timestamp (account_rows df k)).
Proof.
  intros HP. eapply Permutation_Forall; [symmetry; apply sort_values_perm|].
  apply Forall_forall. intros t Ht. apply filter_In in Ht.
  destruct Ht as [Ht Hk]. apply HP; [exact Ht|now apply Z.eqb_eq].
Qed.

(** X4.  An account none of whose trades loses 100% or more ([realized profit
    > -1] throughout) has a maximum drawdown that is a number between 0
    and 100: the bound of a percentage holds there.  (The bound can be
    reached: a cumulative product that shrinks far below its running
    maximum makes the rounded quotient 0, as [halving_drawdown_is_100]
    shows for 55 successive halvings.) *)
Theorem mdd_at_most_100_without_total_loss `{SortRoutine} (df : list Trade) (k : Z) :
  In k (map Port_IDs df) ->
  (forall t, In t df -> Port_IDs t = k -> -1 < realizedProfit t) ->
  exists q, series_get (calculate_mdd df) k = Fin q /\ 0 <= q /\ q <= 100.
Proof.
  intros Hk Hall. rewrite calculate_mdd_get by exact Hk.
  destruct (mdd_of_below_100
              (sort_values Trade by_timestamp (account_rows df k)))
    as [q [E [Hlo Hhi]]].
  - apply sort_values_nonempty. now apply account_rows_nonempty.
  - now apply sorted_account_rows_Forall.
  - exists q. split; [exact E|]. split; [exact Hlo|lra].
Qed.

Lemma mdd_at_most_100_without_total_loss_witness :
  exists q, series_get (calculate_mdd sample_trades) 2 = Fin q /\ 0 <= q /\ q <= 100.
Proof.
  apply (mdd_at_most_100_without_total_loss sample_trades 2).
  - simpl; auto.
  - intros t Ht _. simpl in Ht.
    destruct Ht as [<-|[<-|[<-|[<-|[]]]]]; reflexivity.
Defined.

(** X5.  An account without a losing trade has maximum drawdown 0. *)
Theorem mdd_zero_without_losses `{SortRoutine} (df : list Trade) (k : Z) :
  In k (map Port_IDs df) ->
  (forall t, In t df -> Port_IDs t = k -> 0 <= realizedProfit t) ->
  exists q, series_get (calculate_mdd df) k = Fin q /\ q == 0.
Proof.
  intros Hk Hall. rewrite calculate_mdd_get by exact Hk.
  apply mdd_of_no_losses.
  - apply sort_values_nonempty. now apply account_rows_nonempty.
  - now apply sorted_account_rows_Forall.
Qed.

Lemma mdd_zero_without_losses_witness :
  exists q, series_get (calculate_mdd [mkTrade 5 0 1 1 (3 # 10); mkTrade 5 1 1 1 0]) 5
            = Fin q /\ q == 0.
Proof.
  apply (mdd_zero_without_losses [mkTrade 5 0 1 1 (3 # 10); mkTrade 5 1 1 1 0] 5).
  - simpl; auto.
  - intros t Ht _. simpl in Ht.
    destruct Ht as [<-|[<-|[]]]; simpl; discriminate.
Defined.

(** ** The metrics table as a whole *)

(** X6.  The rows of the metrics table are in strictly ascending account
    order, whatever the order of the trades: a reordered trade table gives
    the same index. *)
Theorem calculate_metrics_index_ascending `{SortRoutine} `{RealFns}
  (tf : TradeFrame) :
  rows tf <> [] ->
  exists table : MetricsTable,
    fst (calculate_metrics tf) = Ok table /\
    StronglySorted Z.lt (map fst table) /\
    forall tf' : TradeFrame,
      Permutation (rows tf) (rows tf') ->
      exists table' : MetricsTable,
        fst (calculate_metrics tf') = Ok table' /\ map fst table' = map fst table.
Proof.
  intros Hne.
  assert (Hidx : forall tf0 : TradeFrame,
             map fst (map (fun k => (k, fillna_row (raw_metrics tf0 k)))
                          (group_keys (map Port_IDs (rows tf0))))
             = group_keys (map Port_IDs (rows tf0))).
  { intros tf0. rewrite map_map. apply map_id. }
  rewrite (calculate_metrics_ok tf Hne). cbn [fst].
  eexists. split; [reflexivity|]. rewrite Hidx.
  split; [apply group_keys_sorted|].
  intros tf' P.
  assert (Hne' : rows tf' <> []).
  { intros E. rewrite E in P. apply Permutation_sym, Permutation_nil in P.
    contradiction. }
  rewrite (calculate_metrics_ok tf' Hne'). cbn [fst].
  eexists. split; [reflexivity|]. rewrite Hidx.
  symmetry. apply group_keys_perm, Permutation_map, P.
Qed.

Lemma calculate_metrics_index_ascending_witness :
  exists table : MetricsTable,
    fst (calculate_metrics (mkFrame sample_trades None)) = Ok table /\
    StronglySorted Z.lt (map fst table).
Proof.
  assert (Hne : rows (mkFrame sample_trades None) <> []) by discriminate.
  destruct (calculate_metrics_index_ascending (mkFrame sample_trades None) Hne)
    as [table [E [Hs _]]].
  exists table. split; [exact E|exact Hs].
Defined.

Lemma raw_metrics_rows_only `{SortRoutine} `{RealFns} (tf tf' : TradeFrame) (k : Z) :
  rows tf = rows tf' -> raw_metrics tf k = raw_metrics tf' k.
Proof.
  intros E. unfold raw_metrics, calculate_sharpe_ratio, dated_rows.
  cbn [fst rows date_column]. now rewrite E.
Qed.

(** X7.  A ['date'] column already in the trade table has no influence on the
    metrics (it is overwritten), and a second call on the table left by a
    first call returns the same metrics and changes the table no further. *)
Theorem calculate_metrics_repeatable `{SortRoutine} `{RealFns} (tf : TradeFrame) :
  calculate_metrics (snd (calculate_metrics tf)) = calculate_metrics tf /\
  forall d : option (list Z),
    calculate_metrics (mkFrame (rows tf) d)
    = (fst (calculate_metrics tf),
       match rows tf with
       | [] => mkFrame (rows tf) d
       | _ :: _ => snd (calculate_metrics tf)
       end).
Proof.
  destruct (rows tf) as [|t r] eqn:Er.
  - assert (E : forall d, calculate_metrics (mkFrame [] d)
                          = (Raise (ValueError "No trade data available for analysis"),
                             mkFrame [] d)) by reflexivity.
    assert (Etf : calculate_metrics tf
                  = (Raise (ValueError "No trade data available for analysis"), tf)).
    { unfold calculate_metrics. now rewrite Er. }
    rewrite Etf. cbn [fst snd]. split; [exact Etf|exact E].
  - assert (Hne : rows tf <> []) by (rewrite Er; discriminate).
    assert (Hany : forall tf', rows tf' = rows tf ->
                               calculate_metrics tf' = calculate_metrics tf).
    { intros tf' E'. rewrite (calculate_metrics_ok tf Hne).
      rewrite (calculate_metrics_ok tf') by (rewrite E'; exact Hne).
      unfold with_date_column. rewrite E'. f_equal. f_equal.
      apply map_ext. intros k. f_equal. f_equal.
      now apply raw_metrics_rows_only. }
    split.
    + apply Hany. rewrite (calculate_metrics_ok tf Hne). reflexivity.
    + intros d. rewrite <- Er. rewrite (Hany (mkFrame (rows tf) d)) by reflexivity.
      apply surjective_pairing.
Qed.

(** * Further properties of the ranking engine *)

(** ** Normalization is total *)


(** X10.  An empty metrics table is ranked to an empty leaderboard, whatever
    [top_n] and the sort routine: nothing raises on the way. *)
Theorem rank_accounts_empty_table `{SortRoutine} (top_n : Z) :
  normalize_metrics [] = Ok (mkNormalized [] [] [] [] [] []) /\
  rank_accounts [] top_n = Ok [].
Proof.
  split; [reflexivity|].
  assert (Erk : rankings_frame [] = Ok []) by reflexivity.
  destruct (rank_accounts_ok [] top_n [] Erk) as [out [Eout [Hentry _]]].
  rewrite Eout. f_equal.
  assert (Hs : sort_values RankingRow score_before [] = []).
  { apply Permutation_nil. symmetry. apply sort_values_perm. }
  rewrite Hs in Hentry. unfold head in Hentry.
  destruct (Z.leb 0 top_n); rewrite firstn_nil in Hentry;
    destruct out; [reflexivity|discriminate|reflexivity|discriminate].
Qed.

(** ** Selection *)


Lemma head_as_firstn {A : Type} (n : Z) (l : list A) :
  exists j : nat, head n l = firstn j l.
Proof. unfold head. destruct (Z.leb 0 n); eexists; reflexivity. Qed.


(** Rows numbered from [a]: the ranks of [rank_accounts] are the case
    [a = 1]. *)
Lemma numbered_firstn (a n : nat) (s : list RankingRow) :
  map2 mkEntry (map Z.of_nat (seq a (length (firstn n s)))) (firstn n s) =
  firstn n (map2 mkEntry (map Z.of_nat (seq a (length s))) s).
Proof.
  revert a n. induction s as [|x r IH]; intros a n.
  - destruct n; reflexivity.
  - destruct n as [|n]; [reflexivity|].
    cbn [firstn length seq map map2]. f_equal. apply IH.
Qed.

(** X12.  A shorter leaderboard is the beginning of a longer one: for
    [0 <= n <= n'], the ranking for [top_n = n] is the first [n] entries,
    ranks included, of the ranking for [top_n = n']. *)
Theorem rank_accounts_prefix `{SortRoutine} (m : MetricsTable) (n n' : Z) :
  (0 <= n <= n')%Z ->
  exists out out' : list RankedEntry,
    rank_accounts m n = Ok out /\
    rank_accounts m n' = Ok out' /\
    out = firstn (Z.to_nat n) out'.
Proof.
  intros Hn.
  destruct (rankings_frame_total m)
    as [o1 [o2 [o3 [o4 [o5 [rk [_ [Erk _]]]]]]]].
  unfold rank_accounts. rewrite Erk. cbn [bind].
  do 2 eexists. split; [reflexivity|]. split; [reflexivity|].
  unfold head, range1.
  destruct (Z.leb_spec 0 n); [|lia]. destruct (Z.leb_spec 0 n'); [|lia].
  set (s := sort_values RankingRow score_before rk).
  rewrite (numbered_firstn 1 (Z.to_nat n) s), (numbered_firstn 1 (Z.to_nat n') s).
  rewrite firstn_firstn. f_equal. lia.
Qed.

Lemma rank_accounts_prefix_witness :
  exists out out' : list RankedEntry,
    rank_accounts tied_metrics 1 = Ok out /\
    rank_accounts tied_metrics 2 = Ok out' /\
    out = firstn 1 out'.
Proof.
  apply (rank_accounts_prefix tied_metrics 1 2). lia.
Defined.

(** ** Rows of the leaderboard *)

Lemma Forall2_In_r {A B : Type} (R : A -> B -> Prop) (l : list A) (l' : list B)
  (b : B) :
  Forall2 R l l' -> In b l' -> exists a, In a l /\ R a b.
Proof.
  induction 1 as [|a b' l l' Hab _ IH]; intros Hin; [contradiction|].
  destruct Hin as [->|Hin]; [exists a; split; [now left|exact Hab]|].
  destruct (IH Hin) as [a' [Ha' Hr]]. exists a'. split; [now right|exact Hr].
Qed.

Lemma NoDup_firstn_of {A : Type} (n : nat) (l : list A) :
  NoDup l -> NoDup (firstn n l).
Proof.
  intros H. rewrite <- (firstn_skipn n l) in H.
  now apply NoDup_app_remove_r in H.
Qed.

Lemma rank_accounts_ids `{SortRoutine} (m : MetricsTable) (top_n : Z) :
  exists out : list RankedEntry,
    rank_accounts m top_n = Ok out /\
    incl (map (fun e => r_Port_IDs (entry e)) out) (map fst m) /\
    (NoDup (map fst m) -> NoDup (map (fun e => r_Port_IDs (entry e)) out)) /\
    ((Z.of_nat (length m) <= top_n)%Z ->
     Permutation (map (fun e => r_Port_IDs (entry e)) out) (map fst m)).
Proof.
  destruct (rankings_frame_total m)
    as [o1 [o2 [o3 [o4 [o5 [rk [_ [Erk [Lrk _]]]]]]]]].
  destruct (rank_accounts_ok m top_n rk Erk) as [out [Eout [Hentry _]]].
  pose proof (Forall2_ids m rk (rankings_frame_rows m rk Erk)) as Hids.
  set (s := sort_values RankingRow score_before rk) in *.
  assert (Ps : Permutation (map r_Port_IDs s) (map fst m)).
  { rewrite <- Hids. apply Permutation_map, sort_values_perm. }
  assert (Hout : map (fun e => r_Port_IDs (entry e)) out
                 = map r_Port_IDs (head top_n s)).
  { rewrite <- Hentry. now rewrite map_map. }
  exists out. split; [exact Eout|]. rewrite Hout.
  destruct (head_as_firstn top_n s) as [j Hj].
  split; [|split].
  - intros x Hx. eapply Permutation_in; [exact Ps|].
    apply in_map_iff in Hx. destruct Hx as [row [<- Hrow]].
    apply in_map. now apply In_head in Hrow.
  - intros Hnd. rewrite Hj, <- firstn_map. apply NoDup_firstn_of.
    eapply Permutation_NoDup; [symmetry; exact Ps|exact Hnd].
  - intros Hn. unfold head. destruct (Z.leb_spec 0 top_n); [|lia].
    rewrite firstn_all2; [exact Ps|].
    unfold s. rewrite sort_values_length, Lrk. lia.
Qed.

(** X13.  The leaderboard never invents or repeats an account: its account
    ids are ids of the metrics table, without repetition when the table has
    none, and when [top_n] is at least the number of accounts every account
    is ranked. *)
Theorem rank_accounts_accounts `{SortRoutine} (m : MetricsTable) (top_n : Z) :
  exists out : list RankedEntry,
    rank_accounts m top_n = Ok out /\
    incl (map (fun e => r_Port_IDs (entry e)) out) (map fst m) /\
    (NoDup (map fst m) -> NoDup (map (fun e => r_Port_IDs (entry e)) out)) /\
    ((Z.of_nat (length m) <= top_n)%Z ->
     Permutation (map (fun e => r_Port_IDs (entry e)) out) (map fst m)).
Proof. exact (rank_accounts_ids m top_n). Qed.

Lemma round2_shown_as_is (x : fval) : shown_as_is x (round2 x).
Proof. unfold shown_as_is. destruct x; [discriminate|reflexivity..]. Qed.

(** X14.  Every entry of the leaderboard is the row of one account of the
    metrics table as it was given: it carries that account's id and its
    win and position counts unchanged, and a metric that is NaN or
    infinite in the table is shown as it is. *)
Theorem leaderboard_rows_carry_metrics `{SortRoutine} (m : MetricsTable)
  (top_n : Z) :
  exists out : list RankedEntry,
    rank_accounts m top_n = Ok out /\
    forall e, In e out ->
      exists kr, In kr m /\
        r_Port_IDs (entry e) = fst kr /\
        Win_Positions (entry e) = win_positions (snd kr) /\
        Total_Positions (entry e) = total_positions (snd kr) /\
        shown_as_is (roi (snd kr)) (ROI (entry e)) /\
        shown_as_is (total_pnl (snd kr)) (Total_PnL (entry e)) /\
        shown_as_is (sharpe_ratio (snd kr)) (Sharpe_Ratio (entry e)) /\
        shown_as_is (max_drawdown (snd kr)) (Max_Drawdown (entry e)) /\
        shown_as_is (win_rate (snd kr)) (Win_Rate (entry e)).
Proof.
  destruct (rankings_frame_total m)
    as [o1 [o2 [o3 [o4 [o5 [rk [_ [Erk _]]]]]]]].
  destruct (rank_accounts_ok m top_n rk Erk) as [out [Eout [Hentry _]]].
  exists out. split; [exact Eout|]. intros e He.
  destruct (Forall2_In_r carried_from m rk (entry e)
              (rankings_frame_rows m rk Erk)) as [kr [Hkr Hc]].
  { eapply Permutation_in; [apply sort_values_perm|].
    apply (In_head top_n). rewrite <- Hentry. now apply in_map. }
  destruct Hc as [Hid [H1 [H2 [H3 [H4 [H5 [Hw Ht]]]]]]].
  exists kr. split; [exact Hkr|]. split; [exact Hid|].
  split; [exact Hw|]. split; [exact Ht|].
  rewrite H1, H2, H3, H4, H5. repeat split; apply round2_shown_as_is.
Qed.

(** ** Dominance *)








(** * The analysis as the application runs it *)


(** ** Ties on the leaderboard *)






(** The two accounts of [mirror_trades] score the same; account 1 is
    ranked first although account 2 comes first in the trade table. *)
Example run_analysis_mirror_trades :
  map Port_IDs mirror_trades = [2; 1]%Z /\
  exists (metrics : MetricsTable) (e1 e2 : RankedEntry),
    fst (run_analysis (mkFrame mirror_trades None)) = Ok (metrics, [e1; e2]) /\
    map (fun e => r_Port_IDs (entry e)) [e1; e2] = [1; 2]%Z /\
    feq (Score (entry e1)) (Score (entry e2)).
Proof.
  split; [reflexivity|].
  do 3 eexists. split; [vm_compute; reflexivity|]. split; reflexivity.
Qed.

(** * Properties of the loader *)

(** ** Column validation *)

Lemma has_column_In (name : string) (cols : list string) :
  has_column name cols = true <-> In name cols.
Proof.
  unfold has_column. rewrite existsb_exists. split.
  - intros [x [Hx E]]. apply String.eqb_eq in E. now subst.
  - intros H. exists name. split; [exact H|apply String.eqb_refl].
Qed.

Lemma has_column_false (name : string) (cols : list string) :
  has_column name cols = false <-> ~ In name cols.
Proof.
  rewrite <- has_column_In. destruct (has_column name cols); split; congruence.
Qed.

Lemma rename_column_length (old new : string) (cols : list string) :
  length (rename_column old new cols) = length cols.
Proof. apply length_map. Qed.

Lemma rename_column_new (old new : string) (cols : list string) :
  In old cols -> In new (rename_column old new cols).
Proof.
  intros H. unfold rename_column. apply in_map_iff. exists old.
  now rewrite String.eqb_refl.
Qed.

Lemma rename_column_other (old new c : string) (cols : list string) :
  c <> old -> In c cols -> In c (rename_column old new cols).
Proof.
  intros Hne H. unfold rename_column. apply in_map_iff. exists c.
  split; [|exact H]. apply String.eqb_neq in Hne. now rewrite Hne.
Qed.

Lemma has_column_rename (old new a : string) (cols : list string) :
  a <> old -> a <> new ->
  has_column a (rename_column old new cols) = has_column a cols.
Proof.
  intros Ho Hn. destruct (has_column a cols) eqn:E.
  - apply has_column_In. apply has_column_In in E. now apply rename_column_other.
  - apply has_column_false. apply has_column_false in E. intros H.
    unfold rename_column in H. apply in_map_iff in H. destruct H as [c [Hc Hin]].
    destruct (String.eqb_spec c old); subst; [congruence|contradiction].
Qed.

Lemma try_alternatives_None (r : string) (alts cols : list string) :
  try_alternatives r alts cols = None ->
  existsb (fun a => has_column a cols) alts = false.
Proof.
  induction alts as [|a rest IH]; simpl; [reflexivity|].
  destruct (has_column a cols); [discriminate|exact IH].
Qed.

Lemma try_alternatives_Some (r : string) (alts cols cols' : list string) :
  try_alternatives r alts cols = Some cols' ->
  exists a, In a alts /\ In a cols /\ cols' = rename_column a r cols /\
            existsb (fun a => has_column a cols) alts = true.
Proof.
  induction alts as [|a rest IH]; simpl; [discriminate|].
  destruct (has_column a cols) eqn:E.
  - intros H. inversion H; subst. exists a.
    split; [now left|]. split; [now apply has_column_In|]. split; reflexivity.
  - intros H. destruct (IH H) as [a' [Ha' [Hin [Hc He]]]].
    exists a'. split; [now right|]. auto.
Qed.

(** No alternative name is itself a required name, and no alternative
    name serves two required columns. *)
Lemma alternative_not_required (r a : string) :
  In r REQUIRED_COLUMNS -> In a (mapping_get column_mapping r) ->
  ~ In a REQUIRED_COLUMNS.
Proof.
  intros Hr Ha. simpl in Hr.
  repeat (destruct Hr as [<-|Hr]; [simpl in Ha;
    repeat (destruct Ha as [<-|Ha]; [simpl; intuition discriminate|]);
    contradiction|]).
  contradiction.
Qed.

Lemma alternatives_disjoint (r r' a : string) :
  In r REQUIRED_COLUMNS -> In r' REQUIRED_COLUMNS -> r <> r' ->
  In a (mapping_get column_mapping r) -> ~ In a (mapping_get column_mapping r').
Proof.
  intros Hr Hr' Hne Ha. simpl in Hr.
  repeat (destruct Hr as [<-|Hr]; [simpl in Ha;
    repeat (destruct Ha as [<-|Ha]; [simpl in Hr';
      repeat (destruct Hr' as [<-|Hr']; [try congruence; simpl; intuition discriminate|]);
      contradiction|]);
    contradiction|]).
  contradiction.
Qed.

Lemma list_remove_filter (x : string) (l : list string) :
  NoDup l -> list_remove x l = filter (fun y => negb (String.eqb y x)) l.
Proof.
  induction 1 as [|y r Hy Hnd IH]; simpl; [reflexivity|].
  destruct (String.eqb_spec y x) as [->|Hne]; simpl.
  - symmetry. apply forallb_filter_id. apply forallb_forall. intros z Hz.
    destruct (String.eqb_spec z x); [subst; contradiction|reflexivity].
  - now rewrite IH.
Qed.

Lemma filter_filter {A : Type} (p q : A -> bool) (l : list A) :
  filter p (filter q l) = filter (fun x => q x && p x) l.
Proof.
  induction l as [|a r IH]; simpl; [reflexivity|].
  destruct (q a); simpl; [destruct (p a)|]; now rewrite IH.
Qed.

Lemma existsb_ext_in {A : Type} (f g : A -> bool) (l : list A) :
  (forall a, In a l -> f a = g a) -> existsb f l = existsb g l.
Proof.
  induction l as [|a r IH]; intros H; simpl; [reflexivity|].
  rewrite (H a) by now left. f_equal. apply IH. intros b Hb. apply H. now right.
Qed.

(** The loop over the missing columns, started from columns [cols] that
    agree with the original columns [cols0] on every alternative name still
    to be looked up. *)
Lemma map_alternatives_spec (todo : list string) :
  forall cols missing cols0 : list string,
    incl todo REQUIRED_COLUMNS -> NoDup todo -> NoDup missing ->
    (forall r a, In r todo -> In a (mapping_get column_mapping r) ->
                 has_column a cols = has_column a cols0) ->
    snd (map_alternatives todo cols missing)
    = filter (fun r => negb (has_column r todo && resolvable cols0 r)) missing /\
    length (fst (map_alternatives todo cols missing)) = length cols /\
    (forall c, In c cols -> In c REQUIRED_COLUMNS ->
               In c (fst (map_alternatives todo cols missing))) /\
    (forall r, In r todo -> resolvable cols0 r = true ->
               In r (fst (map_alternatives todo cols missing))).
Proof.
  induction todo as [|req rest IH]; intros cols missing cols0 Hincl Hnd Hmiss Hagree.
  - cbn [map_alternatives fst snd has_column existsb andb negb].
    split; [|split; [reflexivity|split; [auto|intros r []]]].
    symmetry. apply forallb_filter_id. now apply forallb_forall.
  - assert (Hreq : In req REQUIRED_COLUMNS) by (apply Hincl; now left).
    inversion Hnd as [|? ? Hnotin Hnd']; subst.
    assert (Hincl' : incl rest REQUIRED_COLUMNS)
      by (intros x Hx; apply Hincl; now right).
    assert (Hres : resolvable cols0 req
                   = existsb (fun a => has_column a cols)
                             (mapping_get column_mapping req)).
    { unfold resolvable. apply existsb_ext_in. intros a Ha. symmetry.
      apply (Hagree req a); [now left|exact Ha]. }
    cbn [map_alternatives].
    destruct (try_alternatives req (mapping_get column_mapping req) cols)
      as [cols'|] eqn:Etry.
    + apply try_alternatives_Some in Etry.
      destruct Etry as [alt [Halt [Hin [-> Hex]]]].
      rewrite <- Hres in Hex.
      assert (Hagree' : forall r a, In r rest ->
                                    In a (mapping_get column_mapping r) ->
                                    has_column a (rename_column alt req cols)
                                    = has_column a cols0).
      { intros r a Hr Ha. rewrite has_column_rename.
        - apply (Hagree r a); [now right|exact Ha].
        - intros ->. apply (alternatives_disjoint req r alt); auto.
          intros ->. contradiction.
        - intros ->. apply (alternative_not_required r req); auto. }
      assert (Hmiss' : NoDup (list_remove req missing)).
      { rewrite list_remove_filter by exact Hmiss. now apply NoDup_filter. }
      destruct (IH (rename_column alt req cols) (list_remove req missing) cols0
                   Hincl' Hnd' Hmiss' Hagree') as [Hs [Hl [Hkeep Hget]]].
      split; [|split; [|split]].
      * rewrite Hs, list_remove_filter, filter_filter by exact Hmiss.
        apply filter_ext. intros r. cbn [has_column existsb].
        fold (has_column r rest).
        destruct (String.eqb_spec r req) as [->|Hne]; cbn [negb andb orb].
        -- now rewrite Hex.
        -- reflexivity.
      * now rewrite Hl, rename_column_length.
      * intros c Hc Hcreq. apply Hkeep; [|exact Hcreq].
        apply rename_column_other; [|exact Hc].
        intros ->. now apply (alternative_not_required req alt).
      * intros r [<-|Hr] Hr'.
        -- apply Hkeep; [|exact Hreq]. now apply rename_column_new.
        -- now apply Hget.
    + apply try_alternatives_None in Etry. rewrite <- Hres in Etry.
      assert (Hagree' : forall r a, In r rest ->
                                    In a (mapping_get column_mapping r) ->
                                    has_column a cols = has_column a cols0).
      { intros r a Hr Ha. apply (Hagree r a); [now right|exact Ha]. }
      destruct (IH cols missing cols0 Hincl' Hnd' Hmiss Hagree')
        as [Hs [Hl [Hkeep Hget]]].
      split; [|split; [exact Hl|split; [exact Hkeep|]]].
      * rewrite Hs. apply filter_ext. intros r. cbn [has_column existsb].
        fold (has_column r rest).
        destruct (String.eqb_spec r req) as [->|Hne]; cbn [orb]; [|reflexivity].
        rewrite Etry. apply has_column_false in Hnotin. rewrite Hnotin. reflexivity.
      * intros r [<-|Hr] Hr'; [congruence|now apply Hget].
Qed.

Lemma REQUIRED_COLUMNS_NoDup : NoDup REQUIRED_COLUMNS.
Proof.
  unfold REQUIRED_COLUMNS.
  repeat (constructor; [simpl; intuition discriminate|]). constructor.
Qed.

(** X18.  What [validate_columns] does with the column names of a table.  The
    number of columns never changes and required names already present are
    kept.  When every required column is present or has one of its
    alternative names among the columns, the call succeeds and the table is
    left with all eight required names; otherwise it raises a [ValueError]
    whose message lists exactly the required columns that are neither
    present nor available under an alternative name. *)
Theorem validate_columns_outcome (cols : list string) :
  let after := snd (validate_columns cols) in
  length after = length cols /\
  (forall c, In c cols -> In c REQUIRED_COLUMNS -> In c after) /\
  match unresolved_columns cols with
  | [] =>
      fst (validate_columns cols) = Ok after /\
      forall r, In r REQUIRED_COLUMNS -> In r after
  | _ :: _ =>
      fst (validate_columns cols) =
      Raise (ValueError (missing_columns_message (unresolved_columns cols)))
  end.
Proof.
  remember (filter (fun col => negb (has_column col cols)) REQUIRED_COLUMNS)
    as M eqn:HM.
  assert (Hunres : unresolved_columns cols
                   = filter (fun r => negb (resolvable cols r)) M).
  { subst M. now rewrite filter_filter. }
  assert (Hincl : incl M REQUIRED_COLUMNS)
    by (intros x Hx; subst M; now apply filter_In in Hx).
  assert (Hnd : NoDup M) by (subst M; apply NoDup_filter, REQUIRED_COLUMNS_NoDup).
  assert (HinM : forall r, In r REQUIRED_COLUMNS -> has_column r cols = false ->
                           In r M).
  { intros r Hr E. subst M. apply filter_In. now rewrite E. }
  unfold validate_columns. rewrite <- HM. clear HM.
  destruct M as [|m0 M'].
  - cbn [fst snd]. rewrite Hunres. cbn [filter].
    split; [reflexivity|]. split; [auto|]. split; [reflexivity|].
    intros r Hr. apply has_column_In.
    destruct (has_column r cols) eqn:E; [reflexivity|].
    destruct (HinM r Hr E).
  - set (M := m0 :: M') in *.
    destruct (map_alternatives_spec M cols M cols Hincl Hnd Hnd)
      as [Hs [Hl [Hkeep Hget]]]; [reflexivity|].
    assert (Hs' : snd (map_alternatives M cols M) = unresolved_columns cols).
    { rewrite Hs, Hunres. apply filter_ext_in. intros r Hr.
      apply has_column_In in Hr. now rewrite Hr. }
    destruct (map_alternatives M cols M) as [cols' missing'] eqn:Emap.
    cbn [fst snd] in *. clear Hs. subst missing'.
    destruct (unresolved_columns cols) as [|u us] eqn:Eu; cbn [fst snd].
    + split; [exact Hl|]. split; [exact Hkeep|]. split; [reflexivity|].
      intros r Hr. destruct (has_column r cols) eqn:E.
      * apply Hkeep; [now apply has_column_In|exact Hr].
      * apply Hget; [now apply HinM|].
        destruct (resolvable cols r) eqn:Er; [reflexivity|].
        assert (Hu : In r (filter (fun r => negb (resolvable cols r)) M))
          by (apply filter_In; split; [now apply HinM|now rewrite Er]).
        rewrite <- Hunres in Hu. contradiction.
    + split; [exact Hl|]. split; [exact Hkeep|reflexivity].
Qed.

(** X19.  A table that already has the eight required columns passes
    [validate_columns] untouched. *)
Theorem validate_columns_complete (cols : list string) :
  (forall r, In r REQUIRED_COLUMNS -> In r cols) ->
  validate_columns cols = (Ok cols, cols).
Proof.
  intros Hall. unfold validate_columns.
  assert (E : filter (fun col => negb (has_column col cols)) REQUIRED_COLUMNS = []).
  { destruct (filter _ REQUIRED_COLUMNS) as [|x r] eqn:Ef; [reflexivity|].
    assert (Hx : In x (filter (fun col => negb (has_column col cols))
                              REQUIRED_COLUMNS)) by (rewrite Ef; now left).
    apply filter_In in Hx. destruct Hx as [Hx Hn].
    apply Hall, has_column_In in Hx. rewrite Hx in Hn. discriminate. }
  now rewrite E.
Qed.

Lemma validate_columns_complete_witness :
  validate_columns (REQUIRED_COLUMNS ++ ["trade_value"%string])
  = (Ok (REQUIRED_COLUMNS ++ ["trade_value"%string]),
     REQUIRED_COLUMNS ++ ["trade_value"%string]).
Proof.
  apply (validate_columns_complete (REQUIRED_COLUMNS ++ ["trade_value"%string])).
  intros r Hr. apply in_or_app. now left.
Defined.

Example validate_columns_renames :
  validate_columns ["account_id"; "time"; "pair"; "side"; "positionSide";
                    "price"; "qty"; "pnl"]%string
  = (Ok REQUIRED_COLUMNS, REQUIRED_COLUMNS).
Proof. reflexivity. Qed.

Example validate_columns_raises :
  fst (validate_columns ["account_id"; "time"; "side"; "price"; "qty"]%string)
  = Raise (ValueError
             "Missing required columns: symbol, positionSide, realizedProfit. Required columns are: Port_IDs, timestamp, symbol, side, positionSide, price, quantity, realizedProfit").
Proof. reflexivity. Qed.

(** ** Trade classification *)

Lemma upper_char_idem (c : Ascii.ascii) : upper_char (upper_char c) = upper_char c.
Proof. destruct c as [[] [] [] [] [] [] [] []]; reflexivity. Qed.

Lemma upper_lower_char (c : Ascii.ascii) : upper_char (lower_char c) = upper_char c.
Proof. destruct c as [[] [] [] [] [] [] [] []]; reflexivity. Qed.

Lemma str_upper_idem (s : string) : str_upper (str_upper s) = str_upper s.
Proof.
  induction s as [|c r IH]; [reflexivity|].
  cbn [str_upper str_map] in *. now rewrite upper_char_idem, IH.
Qed.

Lemma str_upper_lower (s : string) : str_upper (str_lower s) = str_upper s.
Proof.
  induction s as [|c r IH]; [reflexivity|].
  cbn [str_upper str_lower str_map] in *. now rewrite upper_lower_char, IH.
Qed.

(** X20.  [classify_trade] looks at its two fields through their upper-case
    form only, so the letter case of the input does not matter; a row
    without [positionSide] is classified like [BOTH], by its side alone;
    with [LONG] or [SHORT], a [BUY] opens a long and closes a short, and any
    other side is treated as a sell. *)
Theorem classify_trade_cases (row : SideRow) :
  let s := str_upper (side row) in
  let p := str_upper (get_positionSide row) in
  classify_trade (mkSideRow (str_lower (side row))
                            (option_map str_lower (positionSide row)))
  = classify_trade row /\
  classify_trade (mkSideRow (str_upper (side row))
                            (option_map str_upper (positionSide row)))
  = classify_trade row /\
  (positionSide row = None -> classify_trade row = str_lower s) /\
  (p = "BOTH"%string -> classify_trade row = str_lower s) /\
  (p = "LONG"%string ->
   classify_trade row
   = if String.eqb s "BUY" then "long_open"%string else "long_close"%string) /\
  (p = "SHORT"%string ->
   classify_trade row
   = if String.eqb s "BUY" then "short_close"%string else "short_open"%string).
Proof.
  intros s p.
  assert (Hp : forall f : string -> string,
             (forall x, str_upper (f x) = str_upper x) ->
             str_upper (get_positionSide
                          (mkSideRow (f (side row))
                                     (option_map f (positionSide row))))
             = str_upper (get_positionSide row)).
  { intros f Hf. unfold get_positionSide. cbn [positionSide].
    destruct (positionSide row); cbn [option_map]; [apply Hf|reflexivity]. }
  split; [|split].
  - unfold classify_trade. rewrite (Hp str_lower str_upper_lower).
    cbn [side]. now rewrite str_upper_lower.
  - unfold classify_trade. rewrite (Hp str_upper str_upper_idem).
    cbn [side]. now rewrite str_upper_idem.
  - unfold classify_trade. fold s p. split; [|split; [|split]].
    + intros Hnone. unfold p, get_positionSide. rewrite Hnone. reflexivity.
    + intros ->. reflexivity.
    + intros ->. cbn [String.eqb Ascii.eqb Bool.eqb]. now destruct (String.eqb s "BUY").
    + intros ->. cbn [String.eqb Ascii.eqb Bool.eqb]. now destruct (String.eqb s "BUY").
Qed.

Example classify_trade_samples :
  classify_trade (mkSideRow "buy" (Some "Long"%string)) = "long_open"%string /\
  classify_trade (mkSideRow "SELL" (Some "short"%string)) = "short_open"%string /\
  classify_trade (mkSideRow "Sell" None) = "sell"%string.
Proof. repeat split. Qed.

(** ** Missing values *)

Lemma fill_column_filled (c : Column) : filled_from c (fill_column c).
Proof.
  destruct c as [v|v|v]; cbn [fill_column filled_from]; [| |reflexivity].
  - apply Forall2_map_same. intros x _. destruct x; cbn [fillna0];
      split; congruence.
  - apply Forall2_map_same. intros x _. destruct x; split; congruence.
Qed.

Lemma fill_column_no_missing (c : Column) :
  is_other c = false -> missing_count (fill_column c) = 0%nat.
Proof.
  destruct c as [v|v|v]; cbn [is_other fill_column missing_count]; try discriminate;
    intros _; unfold count_true.
  - induction v as [|x r IH]; [reflexivity|]. cbn [map filter].
    destruct x; cbn [fillna0 isna]; exact IH.
  - induction v as [|x r IH]; [reflexivity|]. cbn [map filter].
    destruct x; cbn [is_none]; exact IH.
Qed.

Lemma fill_column_idem (c : Column) : fill_column (fill_column c) = fill_column c.
Proof.
  destruct c as [v|v|v]; cbn [fill_column]; [| |reflexivity]; f_equal;
    rewrite map_map; apply map_ext; intros x; now destruct x.
Qed.

(** X21.  [handle_missing_values] returns a table with the same column names
    and dtypes in which no numeric or object column has a missing entry:
    NaN became 0 and missing text ['Unknown'], every other entry
    (infinities included) and every column of another dtype is unchanged.
    Cleaning a cleaned table changes nothing. *)
Theorem handle_missing_values_fills (data : Frame) :
  let df := fst (handle_missing_values data) in
  map fst df = map fst data /\
  Forall2 filled_from (map snd data) (map snd df) /\
  (forall nc, In nc df -> is_other (snd nc) = false ->
              missing_count (snd nc) = 0%nat) /\
  fst (handle_missing_values df) = df.
Proof.
  unfold handle_missing_values. cbn [fst]. split; [|split; [|split]].
  - rewrite map_map. reflexivity.
  - rewrite map_map. cbn [snd].
    rewrite <- (map_map snd fill_column). apply Forall2_map_same.
    intros c _. apply fill_column_filled.
  - intros nc Hin Hother. apply in_map_iff in Hin.
    destruct Hin as [[n c] [<- _]]. cbn [snd] in *.
    destruct c; cbn [fill_column is_other] in Hother; try discriminate;
      now apply fill_column_no_missing.
  - rewrite map_map. apply map_ext. intros [n c]. cbn [fst snd].
    now rewrite fill_column_idem.
Qed.

(** X22.  What [handle_missing_values] shows: nothing when the table has no
    missing entry; otherwise one warning followed by one line for each
    column that has missing entries, in column order.  On a table it has
    cleaned, only columns of other dtypes can still be reported. *)
Theorem handle_missing_values_report (data : Frame) :
  let shown := snd (handle_missing_values data) in
  ((forall nc, In nc data -> missing_count (snd nc) = 0%nat) -> shown = []) /\
  ((exists nc, In nc data /\ missing_count (snd nc) <> 0%nat) ->
   shown =
   st_warning "Missing values found in the following columns:"
   :: map (fun nc => missing_line (fst nc) (missing_count (snd nc)))
          (filter (fun nc => negb (Nat.eqb (missing_count (snd nc)) 0)) data)) /\
  ((forall nc, In nc data -> is_other (snd nc) = false) ->
   snd (handle_missing_values (fst (handle_missing_values data))) = []).
Proof.
  assert (Hnone : forall df : Frame,
             (forall nc, In nc df -> missing_count (snd nc) = 0%nat) ->
             missing_report df = []).
  { intros df H. unfold missing_report.
    destruct (existsb _ df) eqn:E; [|reflexivity].
    apply existsb_exists in E. destruct E as [nc [Hin Hc]].
    rewrite (H nc Hin) in Hc. discriminate. }
  unfold handle_missing_values. cbn [fst snd]. split; [|split].
  - apply Hnone.
  - intros [nc [Hin Hc]]. unfold missing_report.
    assert (E : existsb (fun nc => negb (Nat.eqb (missing_count (snd nc)) 0)) data
                = true).
    { apply existsb_exists. exists nc. split; [exact Hin|].
      apply Nat.eqb_neq in Hc. now rewrite Hc. }
    rewrite E. f_equal. f_equal. apply filter_ext. intros x.
    destruct (missing_count (snd x)); reflexivity.
  - intros Hother. apply Hnone. intros nc Hin. apply in_map_iff in Hin.
    destruct Hin as [[n c] [<- Hin]]. cbn [snd].
    apply fill_column_no_missing. exact (Hother _ Hin).
Qed.

Example format_thousands_samples :
  format_thousands 0 = "0"%string /\ format_thousands 999 = "999"%string /\
  format_thousands 1000 = "1,000"%string /\
  format_thousands 1234 = "1,234"%string.
Proof. repeat split. Qed.

Example handle_missing_values_sample :
  handle_missing_values
    [("price"%string, NumCol [Fin 1; NaN; PInf]);
     ("symbol"%string, ObjCol [Some "BTCUSDT"%string; None; None]);
     ("timestamp"%string, OtherCol [Some 0%Z; Some 1%Z; Some 2%Z])]
  = ([("price"%string, NumCol [Fin 1; Fin 0; PInf]);
      ("symbol"%string, ObjCol [Some "BTCUSDT"%string; Some "Unknown"%string;
                                Some "Unknown"%string]);
      ("timestamp"%string, OtherCol [Some 0%Z; Some 1%Z; Some 2%Z])],
     [st_warning "Missing values found in the following columns:";
      st_write "- price: 1 missing values";
      st_write "- symbol: 2 missing values"]).
Proof. reflexivity. Qed.

(** * A table with a single account *)

Lemma normalize_column_single (x : fval) :
  normalize_column [sanitize x] = Ok [Fin (positive_indicator x)].
Proof.
  rewrite sanitize_clean. unfold normalize_column, positive_indicator.
  cbn [series_max series_min fold_right fmax2 fmin2 fne].
  rewrite Qeq_bool_refl. cbn [negb iloc0 bind map fgt].
  now destruct (Qlt_bool 0 (clean x)).
Qed.

Lemma normalize_mdd_single (x : fval) : normalize_mdd [sanitize x] = [Fin 1].
Proof.
  rewrite sanitize_clean. unfold normalize_mdd.
  cbn [series_max series_min fold_right fmax2 fmin2 fne].
  now rewrite Qeq_bool_refl.
Qed.

(** X16.  With a single account in the metrics table there is no spread to
    scale by: for [top_n >= 1] the account is ranked first with the score
    [0.15 + 0.25 [roi > 0] + 0.20 [total_pnl > 0] + 0.20 [sharpe_ratio > 0]
    + 0.20 [win_rate > 0]], whatever the size of its metrics; the score is
    never below 0.15. *)
Theorem rank_accounts_single_account `{SortRoutine} (k : Z) (r : AccountMetrics)
  (top_n : Z) :
  (1 <= top_n)%Z ->
  exists (e : RankedEntry) (s : Q),
    rank_accounts [(k, r)] top_n = Ok [e] /\
    Rank e = 1%Z /\ r_Port_IDs (entry e) = k /\
    Score (entry e) = Fin s /\
    s == (15 # 100) + (25 # 100) * positive_indicator (roi r)
         + (20 # 100) * positive_indicator (total_pnl r)
         + (20 # 100) * positive_indicator (sharpe_ratio r)
         + (20 # 100) * positive_indicator (win_rate r) /\
    15 # 100 <= s.
Proof.
  intros Hn.
  set (s := score_sum (positive_indicator (roi r)) (positive_indicator (total_pnl r))
                      (positive_indicator (sharpe_ratio r)) 1
                      (positive_indicator (win_rate r))).
  assert (Erk : exists row, rankings_frame [(k, r)] = Ok [row] /\
                            r_Port_IDs row = k /\ Score row = Fin s).
  { unfold rankings_frame, normalize_metrics.
    cbn [sanitized_copy column map fst snd roi total_pnl sharpe_ratio
         max_drawdown win_rate].
    rewrite !normalize_column_single, normalize_mdd_single. cbn [bind].
    eexists. split; [reflexivity|]. split; reflexivity. }
  destruct Erk as [row [Erk [Hid Hs]]].
  destruct (rank_accounts_ok [(k, r)] top_n [row] Erk) as [out [Eout [Hentry Hrank]]].
  rewrite sort_values_single in Hentry, Hrank.
  assert (Hhead : head top_n [row] = [row]).
  { unfold head. destruct (Z.leb_spec 0 top_n); [|lia].
    destruct (Z.to_nat top_n) eqn:E; [lia|]. cbn [firstn]. now rewrite firstn_nil. }
  rewrite Hhead in Hentry, Hrank.
  destruct out as [|e [|e' out']]; try discriminate.
  cbn [map] in Hentry, Hrank.
  assert (He : entry e = row) by congruence.
  assert (Hr : Rank e = 1%Z) by (cbn in Hrank; congruence).
  exists e, s. split; [exact Eout|]. split; [exact Hr|].
  rewrite He. split; [exact Hid|]. split; [exact Hs|].
  unfold s, score_sum, positive_indicator. split; [ring|].
  destruct (Qlt_bool 0 (clean (roi r))), (Qlt_bool 0 (clean (total_pnl r))),
    (Qlt_bool 0 (clean (sharpe_ratio r))), (Qlt_bool 0 (clean (win_rate r)));
    vm_compute; discriminate.
Qed.

Lemma rank_accounts_single_account_witness :
  exists (e : RankedEntry) (s : Q),
    rank_accounts [(9%Z, mkMetrics (Fin 3) (Fin (-4)) NaN (Fin 40) (Fin 50)
                                   (Fin 1) (Fin 2))] default_top_n = Ok [e] /\
    Score (entry e) = Fin s /\ 15 # 100 <= s.
Proof.
  destruct (rank_accounts_single_account 9
              (mkMetrics (Fin 3) (Fin (-4)) NaN (Fin 40) (Fin 50) (Fin 1) (Fin 2))
              default_top_n) as [e [s [E [_ [_ [Hs [_ Hle]]]]]]].
  - unfold default_top_n. lia.
  - exists e, s. auto.
Defined.

(** * The trade summary *)

Lemma frame_loc_map {A : Type} (f : Z -> A) (keys : list Z) (k : Z) :
  In k keys -> frame_loc (map (fun x => (x, f x)) keys) k = Some (f k).
Proof.
  induction keys as [|a r IH]; simpl; [tauto|].
  intros H. destruct (Z.eqb_spec a k); [now subst|].
  apply IH. destruct H; congruence.
Qed.

Lemma account_rows_cleaned (data : list CleanedTrade) (k : Z) :
  account_rows (map ct_trade data) k = map ct_trade (cleaned_rows data k).
Proof. unfold account_rows, cleaned_rows. apply filter_map_comm. Qed.

(** X23.  For an account all of whose rows carry a [trade_type] (as after
    [clean_data]), the [positions] frame of [get_trade_summary] agrees with
    [calculate_win_rate]: same number of positions, same number of wins,
    and a win rate that is the other one rounded to two decimals. *)
Theorem get_trade_summary_matches_win_rate (data : list CleanedTrade) (k : Z) :
  In k (map (fun r => Port_IDs (ct_trade r)) data) ->
  (forall r, In r data -> Port_IDs (ct_trade r) = k -> trade_type r <> None) ->
  let w := calculate_win_rate (map ct_trade data) in
  exists pos : PositionSummary,
    frame_loc (fst (get_trade_summary data)) k = Some pos /\
    series_get (wm_total_positions w) k = Fin (inject_Z (pos_total_trades pos)) /\
    series_get (wm_realizedProfit w) k = Fin (inject_Z (pos_winning_trades pos)) /\
    pos_win_rate pos = round2 (series_get (wm_win_rate w) k) /\
    (1 <= pos_total_trades pos)%Z.
Proof.
  intros Hk Htyped w.
  assert (Hkeys : In k (group_keys (map (fun r => Port_IDs (ct_trade r)) data)))
    by now apply group_keys_In.
  assert (Hkeys' : In k (group_keys (map Port_IDs (map ct_trade data))))
    by (rewrite map_map; exact Hkeys).
  assert (Hall : typed_rows (cleaned_rows data k) = cleaned_rows data k).
  { unfold typed_rows. apply forallb_filter_id, forallb_forall. intros r Hr.
    apply filter_In in Hr. destruct Hr as [Hr Hp]. apply Z.eqb_eq in Hp.
    specialize (Htyped r Hr Hp). now destruct (trade_type r). }
  assert (Hlen : length (account_rows (map ct_trade data) k)
                 = length (cleaned_rows data k))
    by (rewrite account_rows_cleaned; apply length_map).
  assert (Hpos : (1 <= Z.of_nat (length (cleaned_rows data k)))%Z).
  { apply in_map_iff in Hk. destruct Hk as [r [E Hr]].
    assert (In r (cleaned_rows data k))
      by (apply filter_In; split; [exact Hr|now apply Z.eqb_eq]).
    destruct (cleaned_rows data k); [contradiction|simpl; lia]. }
  unfold get_trade_summary, positions_of. cbn [fst].
  rewrite (frame_loc_map _ _ k Hkeys). eexists. split; [reflexivity|].
  cbn [pos_total_trades pos_winning_trades pos_win_rate].
  unfold w, calculate_win_rate. cbn [wm_total_positions wm_realizedProfit wm_win_rate].
  rewrite (series_get_map
             (fun k => Fin (inject_Z (Z.of_nat (length (account_rows (map ct_trade data) k)))))
             _ k Hkeys').
  rewrite (series_get_map
             (fun k => Fin (inject_Z (count_wins (account_rows (map ct_trade data) k))))
             _ k Hkeys').
  rewrite (series_get_map
             (fun k => win_rate_of (count_wins (account_rows (map ct_trade data) k))
                                   (Z.of_nat (length (account_rows (map ct_trade data) k))))
             _ k Hkeys').
  rewrite Hall, Hlen, account_rows_cleaned.
  split; [reflexivity|]. split; [reflexivity|]. split; [|exact Hpos].
  unfold win_rate_of, np_where.
  destruct (Z.ltb_spec 0 (Z.of_nat (length (cleaned_rows data k)))); [reflexivity|lia].
Qed.

Lemma get_trade_summary_matches_win_rate_witness :
  exists pos : PositionSummary,
    frame_loc (fst (get_trade_summary
                      [mkCleaned (mkTrade 4 0 1 2 (1 # 3)) (Some "long_open"%string) 2;
                       mkCleaned (mkTrade 4 1 1 2 (-1)) (Some "long_close"%string) 2;
                       mkCleaned (mkTrade 4 2 1 2 (-1)) (Some "sell"%string) 2])) 4
    = Some pos /\
    pos_win_rate pos
    = round2 (series_get
                (wm_win_rate
                   (calculate_win_rate
                      [mkTrade 4 0 1 2 (1 # 3); mkTrade 4 1 1 2 (-1);
                       mkTrade 4 2 1 2 (-1)])) 4).
Proof.
  destruct (get_trade_summary_matches_win_rate
              [mkCleaned (mkTrade 4 0 1 2 (1 # 3)) (Some "long_open"%string) 2;
               mkCleaned (mkTrade 4 1 1 2 (-1)) (Some "long_close"%string) 2;
               mkCleaned (mkTrade 4 2 1 2 (-1)) (Some "sell"%string) 2] 4)
    as [pos [E [_ [_ [Hw _]]]]].
  - simpl; auto.
  - intros r Hr _. simpl in Hr.
    destruct Hr as [<-|[<-|[<-|[]]]]; discriminate.
  - exists pos. split; [exact E|exact Hw].
Defined.

(** X24.  [get_trade_summary] divides by the number of rows that carry a
    [trade_type] without a guard: for an account none of whose rows has
    one, [total_trades] is 0, the win rate is NaN (no winning trade) or
    infinite, and the account has no row in the [trade_types] frame. *)
Theorem get_trade_summary_untyped_account (data : list CleanedTrade) (k : Z) :
  In k (map (fun r => Port_IDs (ct_trade r)) data) ->
  (forall r, In r data -> Port_IDs (ct_trade r) = k -> trade_type r = None) ->
  exists pos : PositionSummary,
    frame_loc (fst (get_trade_summary data)) k = Some pos /\
    pos_total_trades pos = 0%Z /\
    pos_win_rate pos
    = (if Z.eqb (pos_winning_trades pos) 0 then NaN else PInf) /\
    (forall t, In t (snd (get_trade_summary data)) -> ts_Port_IDs t <> k).
Proof.
  intros Hk Hnone.
  assert (Hkeys : In k (group_keys (map (fun r => Port_IDs (ct_trade r)) data)))
    by now apply group_keys_In.
  assert (Hall : typed_rows (cleaned_rows data k) = []).
  { unfold typed_rows.
    destruct (filter _ (cleaned_rows data k)) as [|r rs] eqn:E; [reflexivity|].
    assert (Hr : In r (filter (fun r => negb (is_none (trade_type r)))
                              (cleaned_rows data k))) by (rewrite E; now left).
    apply filter_In in Hr. destruct Hr as [Hr Ht].
    apply filter_In in Hr. destruct Hr as [Hr Hp]. apply Z.eqb_eq in Hp.
    rewrite (Hnone r Hr Hp) in Ht. discriminate. }
  unfold get_trade_summary, positions_of. cbn [fst snd].
  rewrite (frame_loc_map _ _ k Hkeys). eexists. split; [reflexivity|].
  cbn [pos_total_trades pos_winning_trades pos_win_rate]. rewrite Hall.
  split; [reflexivity|]. split.
  - cbn [length Z.of_nat]. unfold fdiv.
    change (Qeq_bool (inject_Z 0) 0) with true. cbv iota.
    pose proof (Zle_0_nat (length (filter (fun t => Qlt_bool 0 (realizedProfit t))
                                          (map ct_trade (cleaned_rows data k))))) as Hw.
    unfold count_wins.
    set (wins := Z.of_nat _) in *.
    destruct (Z.eqb_spec wins 0) as [->|Hne]; [reflexivity|].
    destruct (Qeq_bool_spec (inject_Z wins) 0) as [Hz|Hz].
    + unfold Qeq in Hz. simpl in Hz. lia.
    + assert (Hlt : Qlt_bool 0 (inject_Z wins) = true).
      { destruct (Qlt_bool_spec 0 (inject_Z wins)) as [|Hn]; [reflexivity|].
        elim Hn. change 0 with (inject_Z 0). rewrite <- Zlt_Qlt. lia. }
      rewrite Hlt. reflexivity.
  - intros t Ht. unfold trade_types_of in Ht. apply in_flat_map in Ht.
    destruct Ht as [k' [Hk' Ht]]. apply in_map_iff in Ht.
    destruct Ht as [ty [<- _]]. cbn [ts_Port_IDs]. intros ->.
    rewrite group_keys_In in Hk'. apply in_map_iff in Hk'.
    destruct Hk' as [r [Hp Hr]]. unfold typed_rows in Hr.
    apply filter_In in Hr. destruct Hr as [Hr Ht].
    rewrite (Hnone r Hr Hp) in Ht. discriminate.
Qed.

Lemma get_trade_summary_untyped_account_witness :
  exists pos : PositionSummary,
    frame_loc (fst (get_trade_summary
                      [mkCleaned (mkTrade 4 0 1 2 (1 # 3)) None 2])) 4 = Some pos /\
    pos_total_trades pos = 0%Z /\ pos_win_rate pos = PInf.
Proof.
  destruct (get_trade_summary_untyped_account
              [mkCleaned (mkTrade 4 0 1 2 (1 # 3)) None 2] 4)
    as [pos [E [H0 [Hw _]]]].
  - simpl; auto.
  - intros r Hr _. simpl in Hr. destruct Hr as [<-|[]]. reflexivity.
  - exists pos. split; [exact E|]. split; [exact H0|].
    rewrite Hw. assert (Epos : Some pos = Some pos) by reflexivity.
    rewrite <- E in Epos at 1. vm_compute in Epos. inversion Epos. reflexivity.
Defined.

(** * The sign of the Sharpe ratio *)





(** * The metrics engine on binary64 numbers *)

Section Binary64Arithmetic.

Import PrimFloat.

Lemma binary64_series_index_map (f : Z -> float) (keys : list Z) :
  Binary64.series_index (map (fun x => (x, f x)) keys) = keys.
Proof.
  unfold Binary64.series_index. rewrite map_map. cbn [fst]. apply map_id.
Qed.

Lemma binary64_daily_returns_ports (df : list Binary64.Trade) (k : Z) :
  In k (map (fun r => fst (fst r)) (Binary64.daily_returns df)) <->
  In k (map Binary64.Port_IDs df).
Proof.
  unfold Binary64.daily_returns. rewrite in_map_iff. split.
  - intros [r [<- Hr]]. apply in_flat_map in Hr. destruct Hr as [k' [Hk' Hr]].
    apply in_map_iff in Hr. destruct Hr as [d [<- _]]. cbn [fst].
    rewrite group_keys_In in Hk'. exact Hk'.
  - intros Hk.
    set (g := Binary64.account_rows df k).
    assert (Hg : map (fun t => date_of (Binary64.timestamp t)) g <> []).
    { apply in_map_iff in Hk. destruct Hk as [t [E Ht]].
      assert (In t g) by (apply filter_In; split; [exact Ht|now apply Z.eqb_eq]).
      destruct g; [contradiction|discriminate]. }
    apply group_keys_nonempty in Hg.
    destruct (group_keys (map (fun t => date_of (Binary64.timestamp t)) g))
      as [|d ds] eqn:Ed; [congruence|].
    eexists. split; [|apply in_flat_map; exists k; split;
                       [now apply group_keys_In|]].
    2:{ fold g. rewrite Ed. left. reflexivity. }
    reflexivity.
Qed.

Lemma binary64_metrics_index `{SortRoutine} `{Binary64.PowRoutine}
  (df : list Binary64.Trade) :
  index_union
    [Binary64.series_index (Binary64.calculate_roi df);
     Binary64.series_index (Binary64.calculate_pnl df);
     Binary64.series_index
       (Binary64.calculate_sharpe_ratio df Binary64.default_risk_free_rate);
     Binary64.series_index (Binary64.calculate_mdd df)] =
  group_keys (map Binary64.Port_IDs df).
Proof.
  apply sorted_lt_unique; try apply group_keys_sorted.
  intros k. unfold index_union. rewrite !group_keys_In.
  cbn [concat]. rewrite !in_app_iff.
  unfold Binary64.calculate_roi, Binary64.calculate_pnl,
    Binary64.calculate_sharpe_ratio, Binary64.calculate_mdd.
  rewrite !binary64_series_index_map.
  rewrite !unique_In, binary64_daily_returns_ports, group_keys_In.
  simpl. tauto.
Qed.

(** On a table with at least one row [calculate_metrics] returns the rows
    of the accounts in ascending order, each filled from the five series. *)
Lemma binary64_calculate_metrics_ok `{SortRoutine} `{Binary64.PowRoutine}
  (df : list Binary64.Trade) :
  df <> [] ->
  Binary64.calculate_metrics df =
  Ok (map (fun k => (k, Binary64.fillna_row (Binary64.raw_metrics df k)))
          (group_keys (map Binary64.Port_IDs df))).
Proof.
  intros Hne. unfold Binary64.calculate_metrics.
  destruct df as [|t r] eqn:Er; [congruence|]. cbn [length Nat.eqb].
  rewrite <- Er. rewrite binary64_metrics_index, map_map. reflexivity.
Qed.

Lemma fillna0_not_nan (x : float) : is_nan (Binary64.fillna0 x) = false.
Proof.
  unfold Binary64.fillna0. destruct (is_nan x) eqn:E; [reflexivity|exact E].
Qed.

Lemma fillna_row_no_nan (m : Binary64.AccountMetrics) :
  Binary64.no_nan (Binary64.fillna_row m) = true.
Proof.
  unfold Binary64.no_nan, Binary64.fillna_row.
  cbn [Binary64.roi Binary64.total_pnl Binary64.sharpe_ratio
       Binary64.max_drawdown Binary64.win_rate Binary64.win_positions
       Binary64.total_positions].
  now rewrite !fillna0_not_nan.
Qed.

(** C1, as the code has it.  On a trade table without rows
    [calculate_metrics] raises [ValueError]; on any other table of binary64
    trades it returns a metrics table with exactly one row per distinct
    account of the input, in ascending account order, each row being the
    entries of the five metric series with NaN replaced by 0: no entry of
    the table is NaN.  Infinite entries are not excluded. *)
Theorem binary64_calculate_metrics_contract `{SortRoutine}
  `{Binary64.PowRoutine} (df : list Binary64.Trade) :
  match df with
  | [] =>
      Binary64.calculate_metrics df =
      Raise (ValueError "No trade data available for analysis")
  | _ :: _ =>
      exists table : Binary64.MetricsTable,
        Binary64.calculate_metrics df = Ok table /\
        table = map (fun k => (k, Binary64.fillna_row (Binary64.raw_metrics df k)))
                    (group_keys (map Binary64.Port_IDs df)) /\
        NoDup (map fst table) /\
        (forall k, In k (map fst table) <-> In k (map Binary64.Port_IDs df)) /\
        length table = length (unique (map Binary64.Port_IDs df)) /\
        Forall (fun kr => Binary64.no_nan (snd kr) = true) table
  end.
Proof.
  destruct df as [|t r] eqn:Er; [reflexivity|].
  assert (Hne : df <> []) by (rewrite Er; discriminate).
  rewrite <- Er. rewrite (binary64_calculate_metrics_ok df Hne).
  eexists. split; [reflexivity|]. split; [reflexivity|].
  assert (Hidx : forall f : Z -> Binary64.AccountMetrics,
             map fst (map (fun k => (k, f k)) (group_keys (map Binary64.Port_IDs df)))
             = group_keys (map Binary64.Port_IDs df)).
  { intros f. rewrite map_map. apply map_id. }
  rewrite Hidx. repeat split.
  - apply group_keys_NoDup.
  - intros Hk. now apply group_keys_In.
  - intros Hk. now apply group_keys_In.
  - rewrite length_map. apply Nat.le_antisymm; apply NoDup_incl_length;
      try apply group_keys_NoDup; try apply unique_NoDup;
      intros x; rewrite group_keys_In, unique_In; tauto.
  - apply Forall_forall. intros kr Hkr. apply in_map_iff in Hkr.
    destruct Hkr as [k [<- _]]. apply fillna_row_no_nan.
Qed.

(** C1, as stated, fails.  Two trades of one account with a realized
    profit of [2^1023] each are finite numbers, their sum is not: the
    metrics table comes back with an infinite [total_pnl] and an infinite
    [roi], which [fillna(0)] leaves in place. *)
Lemma calculate_metrics_overflow :
  Forall (fun t => is_finite (Binary64.realizedProfit t) = true
                   /\ is_finite (Binary64.quantity t) = true)
         Binary64.overflow_trades /\
  exists row : Binary64.AccountMetrics,
    @Binary64.calculate_metrics stable_sorter Binary64.default_pow
      Binary64.overflow_trades = Ok [(1%Z, row)] /\
    Binary64.total_pnl row = infinity /\
    Binary64.roi row = infinity /\
    is_infinity (Binary64.roi row) = true.
Proof.
  split; [repeat constructor|].
  eexists. split; [vm_compute; reflexivity|]. repeat split.
Qed.

(** C7, where the code departs from it.  An account with one trade a day
    on three successive days, each with a realized profit of 0.1, has three
    equal daily returns: there is no variation in its returns.  The
    standard deviation of the three equal excess returns nevertheless
    comes out of the rounded mean as about 1.7e-17, which passes the test
    [std > 0], and the Sharpe ratio is about 1.12e17 where the code means
    to default to 0.  With the first two days alone the deviation is
    exactly 0 and the result is 0. *)
Theorem sharpe_ratio_of_constant_returns :
  Binary64.daily_returns Binary64.constant_trades =
  [(7, 0, Binary64.one_tenth); (7, 1, Binary64.one_tenth);
   (7, 2, Binary64.one_tenth)]%Z /\
  @Binary64.calculate_sharpe_ratio Binary64.default_pow
    Binary64.constant_trades Binary64.default_risk_free_rate
  = [(7%Z, 0x1.8f1f17d165541p+56%float)] /\
  (0x1p+56 <? 0x1.8f1f17d165541p+56)%float = true /\
  @Binary64.calculate_sharpe_ratio Binary64.default_pow
    (firstn 2 Binary64.constant_trades) Binary64.default_risk_free_rate
  = [(7%Z, 0%float)].
Proof. repeat split; vm_compute; reflexivity. Qed.

Lemma filter_flat_map_own {B : Type} (key : B -> Z) (rows_of : Z -> list B)
  (keys : list Z) (k : Z) :
  (forall k' r, In r (rows_of k') -> key r = k') ->
  NoDup keys -> In k keys ->
  filter (fun r => Z.eqb (key r) k) (flat_map rows_of keys) = rows_of k.
Proof.
  intros Hown.
  assert (Hsame : forall k', filter (fun r => Z.eqb (key r) k') (rows_of k')
                             = rows_of k').
  { intros k'. apply forallb_filter_id. apply forallb_forall.
    intros r Hr. apply Z.eqb_eq. now apply Hown. }
  assert (Hother : forall k', k' <> k ->
             filter (fun r => Z.eqb (key r) k) (rows_of k') = []).
  { intros k' Hne. apply filter_none_in. intros r Hr.
    apply Z.eqb_neq. rewrite (Hown k' r Hr). exact Hne. }
  induction 1 as [|a r Ha Hnd IH]; intros Hin; [contradiction|].
  cbn [flat_map]. rewrite filter_app.
  destruct (Z.eq_dec a k) as [->|Hne].
  - rewrite Hsame.
    assert (E : filter (fun r0 => Z.eqb (key r0) k) (flat_map rows_of r) = []).
    { clear IH Hnd Hin. induction r as [|b r IHr]; [reflexivity|].
      cbn [flat_map]. rewrite filter_app, Hother.
      - apply IHr. intro Hk. apply Ha. now right.
      - intros ->. apply Ha. now left. }
    rewrite E. apply app_nil_r.
  - rewrite Hother by exact Hne. cbn [app].
    apply IH. destruct Hin; [contradiction|assumption].
Qed.

Lemma binary64_series_get_map (f : Z -> float) (keys : list Z) (k : Z) :
  In k keys -> Binary64.series_get (map (fun x => (x, f x)) keys) k = f k.
Proof.
  induction keys as [|a r IH]; simpl; [tauto|].
  intros Hin. destruct (Z.eqb_spec a k); [now subst|].
  apply IH. destruct Hin; congruence.
Qed.

(** The daily returns the code reads for one account: one per calendar
    day on which the account traded. *)
Lemma binary64_port_returns_length (df : list Binary64.Trade) (k : Z) :
  In k (map Binary64.Port_IDs df) ->
  length (filter (fun r => Z.eqb (fst (fst r)) k) (Binary64.daily_returns df))
  = length (group_keys (map (fun t => date_of (Binary64.timestamp t))
                            (Binary64.account_rows df k))).
Proof.
  intros Hk. unfold Binary64.daily_returns.
  rewrite (filter_flat_map_own (fun r : Z * Z * float => fst (fst r))).
  - now rewrite length_map.
  - intros k' r Hr. apply in_map_iff in Hr. now destruct Hr as [d [<- _]].
  - apply group_keys_NoDup.
  - now apply group_keys_In.
Qed.

(** X25.  On binary64 numbers as well, an account that traded on fewer
    than two distinct calendar days has Sharpe ratio 0, whatever its
    profits and whatever the risk-free rate. *)
Theorem binary64_sharpe_needs_two_dates `{Binary64.PowRoutine}
  (df : list Binary64.Trade) (risk_free_rate : float) (k : Z) :
  In k (map Binary64.Port_IDs df) ->
  (length (group_keys (map (fun t => date_of (Binary64.timestamp t))
                           (Binary64.account_rows df k))) < 2)%nat ->
  Binary64.series_get (Binary64.calculate_sharpe_ratio df risk_free_rate) k
  = 0%float.
Proof.
  intros Hk Hdays. unfold Binary64.calculate_sharpe_ratio.
  rewrite (binary64_series_get_map
             (fun port_id =>
                Binary64.sharpe_of risk_free_rate
                  (map snd
                     (filter (fun r => Z.eqb (fst (fst r)) port_id)
                        (Binary64.daily_returns df))))).
  - unfold Binary64.sharpe_of.
    rewrite length_map, binary64_port_returns_length by exact Hk.
    destruct (Nat.ltb_spec 1
                (length (group_keys
                           (map (fun t => date_of (Binary64.timestamp t))
                              (Binary64.account_rows df k)))));
      [lia|reflexivity].
  - now rewrite unique_In, binary64_daily_returns_ports.
Qed.

Lemma binary64_sharpe_needs_two_dates_witness :
  @Binary64.series_get
    (@Binary64.calculate_sharpe_ratio Binary64.default_pow
       Binary64.overflow_trades Binary64.default_risk_free_rate) 1
  = 0%float.
Proof.
  apply (@binary64_sharpe_needs_two_dates Binary64.default_pow
           Binary64.overflow_trades Binary64.default_risk_free_rate 1).
  - simpl; auto.
  - vm_compute. lia.
Defined.

(** Fifty-five successive losses of one half, none of them total: the
    cumulative product is [2^-55], its quotient by the running maximum
    [2^-1] is [2^-54], and [2^-54 - 1] rounds to -1.  The maximum drawdown
    is exactly 100. *)
Example halving_drawdown_is_100 :
  Forall (fun t => (-1 <? Binary64.realizedProfit t)%float = true)
         Binary64.halving_trades /\
  @Binary64.calculate_mdd stable_sorter Binary64.halving_trades
  = [(3%Z, 100%float)].
Proof. split; [repeat constructor|vm_compute; reflexivity]. Qed.

End Binary64Arithmetic.
